(** * The in-memory filesystem engine of [filesystems/memory.py]

    A shallow embedding of the node classes ([_File], [_FileChild],
    [_Directory], [_DirectoryChild], [_Link], [_NoSuchEntry]) and of
    [_State], followed by the properties of the engine.

    Python objects are mutable and shared.  The embedding keeps the two
    stores the engine really has:

    - the tree of owned objects below the root directory (a directory object
      owns a persistent map from names to objects);
    - the buffers ([_BytesIOIsTerrible] instances), which a [_File] and the
      handles returned by [open_file] share by reference.

    A reference to a directory, file or link object is the place of that
    object in the tree: the list of names leading to it from the root, never
    through a link.  The root is the empty list, so that the [_name] of the
    root is the empty string and its [_parent] is the root itself, as
    [_Directory.root] builds it. *)

From Stdlib Require Import ZArith NArith Lia.
From Stdlib.Strings Require Import Byte Ascii.
From stdpp Require Import gmap strings list fin_maps.

Set Warnings "-register-all".
Set Default Proof Using "Type".

(** [lia] is used on quotients and remainders by constants. *)
Ltac Zify.zify_post_hook ::= Z.to_euclidean_division_equations.

(** ** Paths and errors *)

(** Modelled from the spec: the [Path] class ([filesystems._path]) is not
    part of the engine; a path is its ordered sequence of segments and the
    root is the path without segments. *)
Abbreviation Path := (list string).

(** Modelled from the spec: [Path.parent] drops the last segment. *)
Definition Path_parent (path : Path) : Path := removelast path.

(** [filesystems.exceptions], and the Python built-in errors that the engine
    and the handles it returns can raise. *)
Inductive error :=
| FileNotFound (path : Path)
| FileExists (path : Path)
| NotADirectory (path : Path)
| IsADirectory (path : Path)
| DirectoryNotEmpty (path : Path)
| PermissionError (path : Path)
| NotASymlink (path : Path)
| SymbolicLoop (path : Path)
| InvalidMode (mode : string)
| KeyError (key : string)
| ValueError
| TypeError
| UnicodeEncodeError
| UnicodeDecodeError.

(** The result of a call: a value, or a raised exception. *)
Inductive outcome (A : Type) :=
| Return (a : A)
| Raise (e : error).
Arguments Return {A} a.
Arguments Raise {A} e.

Definition is_raise {A} (o : outcome A) : bool :=
  match o with Raise _ => true | Return _ => false end.

(** ** Buffers: [_BytesIOIsTerrible] *)

(** A [BytesIO] is open, with its value and position, or closed; [close]
    stores the value in [_hereismyvalue] before the buffer is discarded. *)
Inductive BytesIO :=
| Open (value : list byte) (pos : nat)
| Closed (hereismyvalue : list byte).

(** [_BytesIOIsTerrible(initial)]: the position starts at 0. *)
Definition BytesIO_new (initial : list byte) : BytesIO := Open initial 0.

(** The [bytes] property. *)
Definition BytesIO_bytes (b : BytesIO) : list byte :=
  match b with
  | Open value _ => value
  | Closed hereismyvalue => hereismyvalue
  end.

(** [BytesIO.write]: overwrite from the position on, extending the value
    (zero-filled when the position is beyond the end). *)
Definition BytesIO_write (b : BytesIO) (data : list byte) : outcome BytesIO :=
  match b with
  | Open value pos =>
      Return (Open (take pos value ++ replicate (pos - length value) "000"%byte
                      ++ data ++ drop (pos + length data) value)
                   (pos + length data))
  | Closed _ => Raise ValueError
  end.

(** [BytesIO.read()]: everything from the position to the end. *)
Definition BytesIO_read (b : BytesIO) : outcome (list byte * BytesIO) :=
  match b with
  | Open value pos => Return (drop pos value, Open value (max pos (length value)))
  | Closed _ => Raise ValueError
  end.

(** [_BytesIOIsTerrible.close]: [getvalue] raises on a closed buffer. *)
Definition BytesIO_close (b : BytesIO) : outcome BytesIO :=
  match b with
  | Open value _ => Return (Closed value)
  | Closed _ => Raise ValueError
  end.

(** ** The tree *)

(** The objects a directory owns.  A file holds a reference to its buffer, a
    link holds its stored target; the closure [_entry_at_source] of a link
    is [State_getitem] below, applied to that target. *)
Inductive obj :=
| DirObj (children : gmap string obj)
| FileObj (contents : nat)
| LinkObj (source : Path).

(** [_State]: the children of the root directory, and the buffers. *)
Record State := mkState {
  root : gmap string obj;
  buffers : list BytesIO;
}.

(** [_State()]: an empty root. *)
Definition State_new : State := mkState ∅ [].

(** The children of the directory object at [loc]. *)
Fixpoint children_at (children : gmap string obj) (loc : list string)
  : option (gmap string obj) :=
  match loc with
  | [] => Some children
  | name :: loc' =>
      match children !! name with
      | Some (DirObj children') => children_at children' loc'
      | _ => None
      end
  end.

(** Rebinding [_children] of the directory object at [loc]. *)
Fixpoint update_dir (f : gmap string obj -> gmap string obj)
    (loc : list string) (children : gmap string obj) : gmap string obj :=
  match loc with
  | [] => f children
  | name :: loc' =>
      match children !! name with
      | Some (DirObj children') =>
          <[name := DirObj (update_dir f loc' children')]> children
      | _ => children
      end
  end.

(** The buffer behind a reference.  Every reference the engine hands out
    is allocated ([alloc] below), so the default is never reached from a
    state the engine built. *)
Definition buffer_at (st : State) (ref : nat) : BytesIO :=
  default (BytesIO_new []) (buffers st !! ref).

(** Allocation of a new buffer object. *)
Definition alloc (st : State) (b : BytesIO) : State * nat :=
  (mkState (root st) (buffers st ++ [b]), length (buffers st)).

Definition set_buffer (st : State) (ref : nat) (b : BytesIO) : State :=
  mkState (root st) (<[ref := b]> (buffers st)).

(** ** Nodes *)

(** What a path resolves to.  [loc] is the place of the object, so
    [_name] is [name_of loc] and [_parent] is [parent_of loc]. *)
Inductive Node :=
| Directory (loc : list string) (children : gmap string obj)
| File (loc : list string) (contents : nat)
| Link (loc : list string) (source : Path)
| DirectoryChild (name : string) (parent : list string)
| FileChild (parent : list string)
| NoSuchEntry.

Definition name_of (loc : list string) : string := default EmptyString (last loc).
Definition parent_of (loc : list string) : list string := removelast loc.

Definition node_of_obj (loc : list string) (o : obj) : Node :=
  match o with
  | DirObj children => Directory loc children
  | FileObj contents => File loc contents
  | LinkObj source => Link loc source
  end.

(** [_Directory.__getitem__] *)
Definition Directory_getitem (loc : list string) (children : gmap string obj)
    (name : string) : Node :=
  match children !! name with
  | Some o => node_of_obj (loc ++ [name]) o
  | None => DirectoryChild name loc
  end.

(** The loop of [_State.__getitem__], over any [__getitem__]. *)
Fixpoint walk (getitem : Node -> string -> option Node) (node : Node)
    (segments : list string) : option Node :=
  match segments with
  | [] => Some node
  | segment :: segments' =>
      match getitem node segment with
      | Some node' => walk getitem node' segments'
      | None => None
      end
  end.

(** [node[name]] for the six classes.  [_Link.__getitem__] calls
    [state[source]] and indexes the result, with nothing to bound the
    recursion: [fuel] is the depth of link following still allowed, and
    [None] means that this depth did not suffice. *)
Fixpoint getitem (fuel : nat) (st : State) (node : Node) (name : string)
  : option Node :=
  match node with
  | Directory loc children => Some (Directory_getitem loc children name)
  | File loc _ => Some (FileChild (parent_of loc))
  | Link _ source =>
      match fuel with
      | 0 => None
      | S fuel' =>
          match walk (getitem fuel' st) (Directory [] (root st)) source with
          | Some target => getitem fuel' st target name
          | None => None
          end
      end
  | DirectoryChild _ _ => Some NoSuchEntry
  | FileChild parent => Some (FileChild parent)
  | NoSuchEntry => Some NoSuchEntry
  end.

(** [_State.__getitem__] *)
Definition State_getitem (fuel : nat) (st : State) (path : Path)
  : option Node :=
  walk (getitem fuel st) (Directory [] (root st)) path.

(** [_Link._entry_at_source()] *)
Definition entry_at_source (fuel : nat) (st : State) (source : Path)
  : option Node :=
  State_getitem fuel st source.

(** ** Open modes *)

(** Modelled from the spec: [common._FileMode] is not part of the engine;
    a mode is an activity (read, write or append) and a representation
    (binary or text), text being the default. *)
Inductive Activity := ActRead | ActWrite | ActAppend.

Record FileMode := mkFileMode {
  activity : Activity;
  text : bool;
}.

Definition mode_read (mode : FileMode) : bool :=
  match activity mode with ActRead => true | _ => false end.
Definition mode_write (mode : FileMode) : bool :=
  match activity mode with ActWrite => true | _ => false end.

(** What [open_file] returns: the buffer itself, or a [TextIOWrapper]
    around it. *)
Record handle := mkHandle {
  h_buffer : nat;
  h_text : bool;
}.

(** ** Mutation of directory and file objects *)

(** [_Directory.__setitem__] on the directory object at [loc]. *)
Definition Directory_setitem (st : State) (loc : list string) (name : string)
    (node : obj) : State :=
  mkState (update_dir (fun children => <[name := node]> children) loc (root st))
          (buffers st).

(** [_Directory.__delitem__] on the directory object at [loc]:
    [pmap.remove] raises [KeyError] for a name that is not there. *)
Definition Directory_delitem (st : State) (loc : list string) (name : string)
  : State * outcome unit :=
  match children_at (root st) loc with
  | Some children =>
      match children !! name with
      | Some _ =>
          (mkState (update_dir (fun children => delete name children) loc (root st))
                   (buffers st),
           Return tt)
      | None => (st, Raise (KeyError name))
      end
  | None => (st, Raise (KeyError name))
  end.

(** [self._contents = ref] on the file object at [loc]. *)
Definition set_contents (st : State) (loc : list string) (ref : nat) : State :=
  mkState
    (update_dir
       (fun children =>
          match children !! name_of loc with
          | Some (FileObj _) => <[name_of loc := FileObj ref]> children
          | _ => children
          end)
       (parent_of loc) (root st))
    (buffers st).

(** ** The operations, class by class *)

(** [_File.open_file] *)
Definition File_open_file (st : State) (loc : list string) (contents : nat)
    (mode : FileMode) : State * outcome handle :=
  if mode_read mode then
    let '(st1, file) := alloc st (BytesIO_new (BytesIO_bytes (buffer_at st contents))) in
    (st1, Return (mkHandle file (text mode)))
  else if mode_write mode then
    let '(st1, file) := alloc st (BytesIO_new []) in
    (set_contents st1 loc file, Return (mkHandle file (text mode)))
  else
    let original := buffer_at st contents in
    let '(st1, file) := alloc st (BytesIO_new []) in
    let st2 := set_contents st1 loc file in
    match BytesIO_write (buffer_at st2 file) (BytesIO_bytes original) with
    | Return b => (set_buffer st2 file b, Return (mkHandle file (text mode)))
    | Raise e => (st2, Raise e)
    end.

(** [_File.remove_file] and [_Link.remove_file] *)
Definition File_remove_file (st : State) (loc : list string)
  : State * outcome unit :=
  Directory_delitem st (parent_of loc) (name_of loc).

(** [_Directory.remove_empty_directory] *)
Definition Directory_remove_empty_directory (st : State) (loc : list string)
    (children : gmap string obj) (path : Path) : State * outcome unit :=
  if negb (Nat.eqb (size children) 0) then (st, Raise (DirectoryNotEmpty path))
  else Directory_delitem st (parent_of loc) (name_of loc).

(** [_DirectoryChild.create_directory] *)
Definition DirectoryChild_create_directory (st : State) (name : string)
    (parent : list string) : State * outcome unit :=
  (Directory_setitem st parent name (DirObj ∅), Return tt).

(** The construction [self._parent[self._name] = _File(name, parent)]; the
    new file object gets a buffer of its own from the attribute factory. *)
Definition DirectoryChild_new_file (st : State) (name : string)
    (parent : list string) : State * nat :=
  let '(st1, contents) := alloc st (BytesIO_new []) in
  (Directory_setitem st1 parent name (FileObj contents), contents).

(** [_DirectoryChild.create_file] *)
Definition DirectoryChild_create_file (st : State) (name : string)
    (parent : list string) (path : Path) : State * outcome handle :=
  let '(st1, contents) := DirectoryChild_new_file st name parent in
  File_open_file st1 (parent ++ [name]) contents (mkFileMode ActWrite true).

(** [_DirectoryChild.open_file] *)
Definition DirectoryChild_open_file (st : State) (name : string)
    (parent : list string) (path : Path) (mode : FileMode)
  : State * outcome handle :=
  if mode_read mode then (st, Raise (FileNotFound path))
  else
    let '(st1, contents) := DirectoryChild_new_file st name parent in
    File_open_file st1 (parent ++ [name]) contents mode.

(** [_DirectoryChild.link] *)
Definition DirectoryChild_link (st : State) (name : string)
    (parent : list string) (source : Path) : State * outcome unit :=
  (Directory_setitem st parent name (LinkObj source), Return tt).

(** ** The operations, dispatched on the class of the node *)

Definition Node_create_directory (st : State) (node : Node) (path : Path)
  : State * outcome unit :=
  match node with
  | Directory _ _ | File _ _ | Link _ _ => (st, Raise (FileExists path))
  | DirectoryChild name parent => DirectoryChild_create_directory st name parent
  | FileChild _ => (st, Raise (NotADirectory (Path_parent path)))
  | NoSuchEntry => (st, Raise (FileNotFound (Path_parent path)))
  end.

Fixpoint Node_list_directory (fuel : nat) (st : State) (node : Node)
    (path : Path) : option (State * outcome (gset string)) :=
  match node with
  | Directory _ children => Some (st, Return (dom children))
  | File _ _ => Some (st, Raise (NotADirectory path))
  | Link _ source =>
      match fuel with
      | 0 => None
      | S fuel' =>
          match entry_at_source fuel' st source with
          | Some target => Node_list_directory fuel' st target path
          | None => None
          end
      end
  | DirectoryChild _ _ => Some (st, Raise (FileNotFound path))
  | FileChild _ => Some (st, Raise (NotADirectory path))
  | NoSuchEntry => Some (st, Raise (FileNotFound path))
  end.

Definition Node_remove_empty_directory (st : State) (node : Node)
    (path : Path) : State * outcome unit :=
  match node with
  | Directory loc children => Directory_remove_empty_directory st loc children path
  | File _ _ | Link _ _ => (st, Raise (NotADirectory path))
  | DirectoryChild _ _ => (st, Raise (FileNotFound path))
  | FileChild _ => (st, Raise (NotADirectory path))
  | NoSuchEntry => (st, Raise (FileNotFound path))
  end.

Definition Node_create_file (st : State) (node : Node) (path : Path)
  : State * outcome handle :=
  match node with
  | Directory _ _ | File _ _ | Link _ _ => (st, Raise (FileExists path))
  | DirectoryChild name parent => DirectoryChild_create_file st name parent path
  | FileChild _ => (st, Raise (NotADirectory path))
  | NoSuchEntry => (st, Raise (FileNotFound path))
  end.

Fixpoint Node_open_file (fuel : nat) (st : State) (node : Node) (path : Path)
    (mode : FileMode) : option (State * outcome handle) :=
  match node with
  | Directory _ _ => Some (st, Raise (IsADirectory path))
  | File loc contents => Some (File_open_file st loc contents mode)
  | Link _ source =>
      match fuel with
      | 0 => None
      | S fuel' =>
          match entry_at_source fuel' st source with
          | Some target => Node_open_file fuel' st target path mode
          | None => None
          end
      end
  | DirectoryChild name parent =>
      Some (DirectoryChild_open_file st name parent path mode)
  | FileChild _ => Some (st, Raise (NotADirectory path))
  | NoSuchEntry => Some (st, Raise (FileNotFound path))
  end.

Definition Node_remove_file (st : State) (node : Node) (path : Path)
  : State * outcome unit :=
  match node with
  | Directory _ _ => (st, Raise (PermissionError path))
  | File loc _ | Link loc _ => File_remove_file st loc
  | DirectoryChild _ _ => (st, Raise (FileNotFound path))
  | FileChild _ => (st, Raise (NotADirectory path))
  | NoSuchEntry => (st, Raise (FileNotFound path))
  end.

Definition Node_link (st : State) (node : Node) (source to : Path)
  : State * outcome unit :=
  match node with
  | Directory _ _ | File _ _ | Link _ _ => (st, Raise (FileExists to))
  | DirectoryChild name parent => DirectoryChild_link st name parent source
  | FileChild _ => (st, Raise (NotADirectory (Path_parent to)))
  | NoSuchEntry => (st, Raise (FileNotFound (Path_parent to)))
  end.

Definition Node_readlink (st : State) (node : Node) (path : Path)
  : State * outcome Path :=
  match node with
  | Directory _ _ | File _ _ => (st, Raise (NotASymlink path))
  | Link _ source => (st, Return source)
  | DirectoryChild _ _ => (st, Raise (FileNotFound path))
  | FileChild _ => (st, Raise (NotADirectory path))
  | NoSuchEntry => (st, Raise (FileNotFound path))
  end.

Fixpoint Node_exists (fuel : nat) (st : State) (node : Node) : option bool :=
  match node with
  | Directory _ _ | File _ _ => Some true
  | Link _ source =>
      match fuel with
      | 0 => None
      | S fuel' =>
          match entry_at_source fuel' st source with
          | Some target => Node_exists fuel' st target
          | None => None
          end
      end
  | DirectoryChild _ _ | FileChild _ | NoSuchEntry => Some false
  end.

Fixpoint Node_is_dir (fuel : nat) (st : State) (node : Node) : option bool :=
  match node with
  | Directory _ _ => Some true
  | File _ _ => Some false
  | Link _ source =>
      match fuel with
      | 0 => None
      | S fuel' =>
          match entry_at_source fuel' st source with
          | Some target => Node_is_dir fuel' st target
          | None => None
          end
      end
  | DirectoryChild _ _ | FileChild _ | NoSuchEntry => Some false
  end.

Fixpoint Node_is_file (fuel : nat) (st : State) (node : Node) : option bool :=
  match node with
  | Directory _ _ => Some false
  | File _ _ => Some true
  | Link _ source =>
      match fuel with
      | 0 => None
      | S fuel' =>
          match entry_at_source fuel' st source with
          | Some target => Node_is_file fuel' st target
          | None => None
          end
      end
  | DirectoryChild _ _ | FileChild _ | NoSuchEntry => Some false
  end.

Definition Node_is_link (node : Node) : bool :=
  match node with
  | Link _ _ => true
  | _ => false
  end.

(** ** [_State]: resolve the path, then delegate to the node *)

Definition State_create_directory (fuel : nat) (st : State) (path : Path)
  : option (State * outcome unit) :=
  node ← State_getitem fuel st path;
  Some (Node_create_directory st node path).

Definition State_list_directory (fuel : nat) (st : State) (path : Path)
  : option (State * outcome (gset string)) :=
  node ← State_getitem fuel st path;
  Node_list_directory fuel st node path.

Definition State_remove_empty_directory (fuel : nat) (st : State)
    (path : Path) : option (State * outcome unit) :=
  node ← State_getitem fuel st path;
  Some (Node_remove_empty_directory st node path).

Definition State_create_file (fuel : nat) (st : State) (path : Path)
  : option (State * outcome handle) :=
  node ← State_getitem fuel st path;
  Some (Node_create_file st node path).

Section OpenFile.
(** [common._parse_mode] is not part of the engine: it is a parameter,
    which returns the parsed mode or raises. *)
Variable _parse_mode : string -> outcome FileMode.

(** [_State.open_file]: the mode is parsed before the tree is looked at. *)
Definition State_open_file (fuel : nat) (st : State) (path : Path)
    (mode : string) : option (State * outcome handle) :=
  match _parse_mode mode with
  | Raise e => Some (st, Raise e)
  | Return mode =>
      node ← State_getitem fuel st path;
      Node_open_file fuel st node path mode
  end.
End OpenFile.

Definition State_remove_file (fuel : nat) (st : State) (path : Path)
  : option (State * outcome unit) :=
  node ← State_getitem fuel st path;
  Some (Node_remove_file st node path).

Definition State_link (fuel : nat) (st : State) (source to : Path)
  : option (State * outcome unit) :=
  node ← State_getitem fuel st to;
  Some (Node_link st node source to).

Definition State_readlink (fuel : nat) (st : State) (path : Path)
  : option (State * outcome Path) :=
  node ← State_getitem fuel st path;
  Some (Node_readlink st node path).

Definition State_exists (fuel : nat) (st : State) (path : Path) : option bool :=
  node ← State_getitem fuel st path;
  Node_exists fuel st node.

Definition State_is_dir (fuel : nat) (st : State) (path : Path) : option bool :=
  node ← State_getitem fuel st path;
  Node_is_dir fuel st node.

Definition State_is_file (fuel : nat) (st : State) (path : Path) : option bool :=
  node ← State_getitem fuel st path;
  Node_is_file fuel st node.

Definition State_is_link (fuel : nat) (st : State) (path : Path) : option bool :=
  node ← State_getitem fuel st path;
  Some (Node_is_link node).

(** Modelled from the spec: [common._parse_mode] is not among the sources.
    One activity letter among r, w and a (r when there is none) and at most
    one of b and t (text when there is none); anything else is
    [InvalidMode]. *)
Definition parse_letter (c : Ascii.ascii) : option (Activity + bool) :=
  if Ascii.eqb c "r"%char then Some (inl ActRead)
  else if Ascii.eqb c "w"%char then Some (inl ActWrite)
  else if Ascii.eqb c "a"%char then Some (inl ActAppend)
  else if Ascii.eqb c "b"%char then Some (inr false)
  else if Ascii.eqb c "t"%char then Some (inr true)
  else None.

Fixpoint parse_letters (letters : list Ascii.ascii) (act : option Activity)
    (repr : option bool) : option FileMode :=
  match letters with
  | [] => Some (mkFileMode (default ActRead act) (default true repr))
  | c :: letters' =>
      match parse_letter c, act, repr with
      | Some (inl a), None, _ => parse_letters letters' (Some a) repr
      | Some (inr t), _, None => parse_letters letters' act (Some t)
      | _, _, _ => None
      end
  end.

Definition parse_mode (mode : string) : outcome FileMode :=
  match parse_letters (String.list_ascii_of_string mode) None None with
  | Some m => Return m
  | None => Raise (InvalidMode mode)
  end.

(** ** Handles: what the caller does with the object [open_file] returned

    The handle is the buffer itself (binary) or [TextIOWrapper(buffer)]
    (text).  The wrapper is taken with the defaults the engine gives it:
    strict UTF-8, universal newlines on reading, and a line separator that
    is the newline itself on writing.  Its internal write-behind is not
    kept: a text written reaches the buffer at once here, at [flush] or
    [close] in the wrapper.  Every property below either closes the handle
    before the file is looked at again, or says nothing about the buffer
    that was written to. *)

(** A Python [str] is a sequence of code points. *)
Abbreviation str := (list N).

Inductive payload :=
| Bytes (data : list byte)
| Text (data : str).

Definition byte_of_N (n : N) : byte := default "000"%byte (Byte.of_N n).

(** The UTF-8 encoding of one code point; surrogates cannot be encoded. *)
Definition encode_char (c : N) : option (list byte) :=
  if (c <? 128)%N then Some [byte_of_N c]
  else if (c <? 2048)%N then
    Some [byte_of_N (192 + c / 64); byte_of_N (128 + c mod 64)]
  else if (c <? 65536)%N then
    if ((55296 <=? c) && (c <? 57344))%N then None
    else Some [byte_of_N (224 + c / 4096); byte_of_N (128 + (c / 64) mod 64);
               byte_of_N (128 + c mod 64)]
  else if (c <? 1114112)%N then
    Some [byte_of_N (240 + c / 262144); byte_of_N (128 + (c / 4096) mod 64);
          byte_of_N (128 + (c / 64) mod 64); byte_of_N (128 + c mod 64)]
  else None.

Fixpoint encode (s : str) : option (list byte) :=
  match s with
  | [] => Some []
  | c :: s' =>
      match encode_char c, encode s' with
      | Some bs, Some bs' => Some (bs ++ bs')
      | _, _ => None
      end
  end.

(** A continuation byte and its six bits. *)
Definition continuation (b : byte) : option N :=
  let n := Byte.to_N b in
  if ((128 <=? n) && (n <? 192))%N then Some (n - 128)%N else None.

(** Strict UTF-8 decoding: no overlong forms, no surrogates, nothing above
    U+10FFFF. *)
Fixpoint decode (bs : list byte) : option str :=
  match bs with
  | [] => Some []
  | b0 :: bs1 =>
      let n0 := Byte.to_N b0 in
      if (n0 <? 128)%N then cons n0 <$> decode bs1
      else if (n0 <? 194)%N then None
      else if (n0 <? 224)%N then
        match bs1 with
        | b1 :: bs2 =>
            match continuation b1 with
            | Some n1 => cons ((n0 - 192) * 64 + n1)%N <$> decode bs2
            | None => None
            end
        | _ => None
        end
      else if (n0 <? 240)%N then
        match bs1 with
        | b1 :: b2 :: bs3 =>
            match continuation b1, continuation b2 with
            | Some n1, Some n2 =>
                let c := ((n0 - 224) * 4096 + n1 * 64 + n2)%N in
                if ((c <? 2048) || ((55296 <=? c) && (c <? 57344)))%N then None
                else cons c <$> decode bs3
            | _, _ => None
            end
        | _ => None
        end
      else if (n0 <? 245)%N then
        match bs1 with
        | b1 :: b2 :: b3 :: bs4 =>
            match continuation b1, continuation b2, continuation b3 with
            | Some n1, Some n2, Some n3 =>
                let c := ((n0 - 240) * 262144 + n1 * 4096 + n2 * 64 + n3)%N in
                if ((c <? 65536) || (1114112 <=? c))%N then None
                else cons c <$> decode bs4
            | _, _, _ => None
            end
        | _ => None
        end
      else None
  end.

(** Universal newlines: a carriage return, with the line feed that may
    follow it, is read as one line feed. *)
Fixpoint universal_newlines (s : str) : str :=
  match s with
  | [] => []
  | c :: s' =>
      if (c =? 13)%N then
        10%N :: match s' with
                | c' :: s'' =>
                    if (c' =? 10)%N then universal_newlines s''
                    else universal_newlines s'
                | [] => []
                end
      else c :: universal_newlines s'
  end.

(** What a handle accepts: bytes when it is the buffer, text when it is the
    wrapper, which encodes it. *)
Definition encoded (text : bool) (data : payload) : outcome (list byte) :=
  match text, data with
  | false, Bytes bs => Return bs
  | true, Text s =>
      match encode s with
      | Some bs => Return bs
      | None => Raise UnicodeEncodeError
      end
  | _, _ => Raise TypeError
  end.

(** What a handle gives back for the bytes it reads. *)
Definition decoded (text : bool) (bs : list byte) : outcome payload :=
  if text then
    match decode bs with
    | Some s => Return (Text (universal_newlines s))
    | None => Raise UnicodeDecodeError
    end
  else Return (Bytes bs).

(** [handle.write(data)] *)
Definition handle_write (st : State) (h : handle) (data : payload)
  : State * outcome unit :=
  match buffer_at st (h_buffer h) with
  | Closed _ => (st, Raise ValueError)
  | Open _ _ as buffer =>
      match encoded (h_text h) data with
      | Raise e => (st, Raise e)
      | Return bs =>
          match BytesIO_write buffer bs with
          | Return buffer' => (set_buffer st (h_buffer h) buffer', Return tt)
          | Raise e => (st, Raise e)
          end
      end
  end.

(** [handle.read()] *)
Definition handle_read (st : State) (h : handle) : State * outcome payload :=
  match BytesIO_read (buffer_at st (h_buffer h)) with
  | Raise e => (st, Raise e)
  | Return (bs, buffer') =>
      (set_buffer st (h_buffer h) buffer', decoded (h_text h) bs)
  end.

(** [handle.close()]: closing a wrapper twice is allowed, closing the
    buffer twice is not. *)
Definition handle_close (st : State) (h : handle) : State * outcome unit :=
  match BytesIO_close (buffer_at st (h_buffer h)) with
  | Return buffer' => (set_buffer st (h_buffer h) buffer', Return tt)
  | Raise e => if h_text h then (st, Return tt) else (st, Raise e)
  end.

(** ** What the properties speak about *)

(** The object bound to the last name of [loc] in the directory that the
    rest of [loc] leads to. *)
Definition child_at (children : gmap string obj) (loc : list string)
  : option obj :=
  children' ← children_at children (parent_of loc);
  children' !! name_of loc.

(** A node is a faithful reference into the tree of [st]: it is the object
    found at its place.  Every node that resolution returns is. *)
Definition valid (st : State) (node : Node) : Prop :=
  match node with
  | Directory loc children => children_at (root st) loc = Some children
  | File loc contents =>
      loc ≠ [] ∧ child_at (root st) loc = Some (FileObj contents)
  | Link loc source =>
      loc ≠ [] ∧ child_at (root st) loc = Some (LinkObj source)
  | DirectoryChild name parent =>
      ∃ children,
        children_at (root st) parent = Some children ∧ children !! name = None
  | FileChild _ | NoSuchEntry => True
  end.

(** One directory's mapping as the engine sees it: which names it binds,
    and to which object (a sub-directory, a file with its buffer, a link
    with its target), without what lies below. *)
Inductive binding :=
| BDirectory
| BFile (contents : nat)
| BLink (source : Path).

Definition binding_of (o : obj) : binding :=
  match o with
  | DirObj _ => BDirectory
  | FileObj contents => BFile contents
  | LinkObj source => BLink source
  end.

Definition mapping_at (st : State) (loc : list string)
  : option (gmap string binding) :=
  (λ children : gmap string obj, binding_of <$> children)
    <$> children_at (root st) loc.

(** The eight operations of the engine that can raise, as [FS()] hands
    them to [common.create], and what they return. *)
Inductive request :=
| create_file (path : Path)
| open_file (path : Path) (mode : string)
| remove_file (path : Path)
| create_directory (path : Path)
| list_directory (path : Path)
| remove_empty_directory (path : Path)
| link (source to : Path)
| readlink (path : Path).

Inductive value :=
| VNone
| VHandle (h : handle)
| VNames (names : gset string)
| VPath (path : Path).

Definition returning {A} (f : A → value)
    (r : option (State * outcome A)) : option (State * outcome value) :=
  '(st, o) ← r;
  Some (st, match o with Return a => Return (f a) | Raise e => Raise e end).

Definition perform (_parse_mode : string → outcome FileMode) (fuel : nat)
    (st : State) (r : request) : option (State * outcome value) :=
  match r with
  | create_file path => returning VHandle (State_create_file fuel st path)
  | open_file path mode =>
      returning VHandle (State_open_file _parse_mode fuel st path mode)
  | remove_file path => returning (λ _, VNone) (State_remove_file fuel st path)
  | create_directory path =>
      returning (λ _, VNone) (State_create_directory fuel st path)
  | list_directory path => returning VNames (State_list_directory fuel st path)
  | remove_empty_directory path =>
      returning (λ _, VNone) (State_remove_empty_directory fuel st path)
  | link source to => returning (λ _, VNone) (State_link fuel st source to)
  | readlink path => returning VPath (State_readlink fuel st path)
  end.

(** ** States used as examples *)

(** A directory [d] holding a file [f] and a link [l] to it. *)
Definition st_dfl : State :=
  mkState {["d" := DirObj {["f" := FileObj 0; "l" := LinkObj ["d"; "f"]]}]}
          [BytesIO_new []].

(** A link [loop] that targets itself, in the root. *)
Definition st_loop : State := mkState {["loop" := LinkObj ["loop"]]} [].

(** Two links that target each other. *)
Definition st_loop2 : State :=
  mkState {["one" := LinkObj ["two"]; "two" := LinkObj ["one"]]} [].

(** A link [l] to a file [f], both in the root. *)
Definition st_lf : State :=
  mkState {["l" := LinkObj ["f"]; "f" := FileObj 0]} [BytesIO_new []].

(** ** Following links *)

(** The delegation of [_Link.open_file], [_Link.list_directory] and of the
    stat methods of a link: [self._entry_at_source()], again and again
    until the node is not a link. *)
Fixpoint follow (fuel : nat) (st : State) (node : Node) : option Node :=
  match node with
  | Link _ source =>
      match fuel with
      | 0 => None
      | S fuel' =>
          match entry_at_source fuel' st source with
          | Some target => follow fuel' st target
          | None => None
          end
      end
  | _ => Some node
  end.

(** Every link of the tree can be followed to a node that is not a link
    (which may well be a node that does not exist). *)
Definition links_end (st : State) : Prop :=
  ∀ loc source,
    valid st (Link loc source) →
    ∃ fuel node, follow fuel st (Link loc source) = Some node.

(** A self-referential ([chain] has one path) or mutually-referential
    chain of links: every path of the chain resolves to a link whose
    stored target is the next path of the chain, the last one targeting
    the first. *)
Definition link_cycle (st : State) (chain : list Path) : Prop :=
  ∀ i path,
    chain !! i = Some path →
    ∃ fuel loc source,
      State_getitem fuel st path = Some (Link loc source) ∧
      chain !! (S i mod length chain) = Some source.

(** The path that an operation resolves. *)
Definition request_path (r : request) : Path :=
  match r with
  | create_file path | open_file path _ | remove_file path
  | create_directory path | list_directory path
  | remove_empty_directory path | readlink path => path
  | link _ to => to
  end.

(** The mode string of the operation, if it has one, is accepted. *)
Definition mode_accepted (_parse_mode : string → outcome FileMode)
    (r : request) : bool :=
  match r with
  | open_file _ mode => negb (is_raise (_parse_mode mode))
  | _ => true
  end.

Definition is_SymbolicLoop (e : error) : bool :=
  match e with SymbolicLoop _ => true | _ => false end.

(** ** What a caller does with a file *)

(** [with open_file(path, mode) as f: f.write(data)]; the handle is closed
    when the block is left, also by an exception. *)
Definition write_file (_parse_mode : string → outcome FileMode) (fuel : nat)
    (st : State) (path : Path) (mode : string) (data : payload)
  : option (State * outcome unit) :=
  match State_open_file _parse_mode fuel st path mode with
  | None => None
  | Some (st1, Raise e) => Some (st1, Raise e)
  | Some (st1, Return f) =>
      match handle_write st1 f data with
      | (st2, Return _) => Some (handle_close st2 f)
      | (st2, Raise e) => Some ((handle_close st2 f).1, Raise e)
      end
  end.

(** [with open_file(path, mode) as f: return f.read()] *)
Definition read_file (_parse_mode : string → outcome FileMode) (fuel : nat)
    (st : State) (path : Path) (mode : string)
  : option (State * outcome payload) :=
  match State_open_file _parse_mode fuel st path mode with
  | None => None
  | Some (st1, Raise e) => Some (st1, Raise e)
  | Some (st1, Return f) =>
      match handle_read st1 f with
      | (st2, Return data) =>
          match handle_close st2 f with
          | (st3, Return _) => Some (st3, Return data)
          | (st3, Raise e) => Some (st3, Raise e)
          end
      | (st2, Raise e) => Some ((handle_close st2 f).1, Raise e)
      end
  end.

(** The node that [path] leads to when the links are followed to the end:
    the node on which [open_file] acts. *)
Definition State_follow (fuel : nat) (st : State) (path : Path)
  : option Node :=
  node ← State_getitem fuel st path;
  follow fuel st node.

(** A file, or a place in an existing directory where one can be made. *)
Definition file_or_missing (node : Node) : bool :=
  match node with
  | File _ _ | DirectoryChild _ _ => true
  | _ => false
  end.

(** The place of the file that a node stands for. *)
Definition file_loc (node : Node) : list string :=
  match node with
  | File loc _ => loc
  | DirectoryChild name parent => parent ++ [name]
  | _ => []
  end.

(** The contents of the file behind a node: the [bytes] of its buffer. *)
Definition contents_of (st : State) (node : Node) : list byte :=
  match node with
  | File _ contents => BytesIO_bytes (buffer_at st contents)
  | _ => []
  end.

(** A text without carriage return. *)
Definition plain (data : payload) : Prop :=
  match data with
  | Bytes _ => True
  | Text s => 13%N ∉ s
  end.

(** ** States that differ by files made or rewritten

    [tree_grows children children']: every directory of the first tree is
    a directory of the second, where each name is bound as before, except
    that a file may have another buffer and that a name which was free may
    be bound to a file. *)
Definition obj_grows (o o' : option obj) : Prop :=
  match o with
  | Some (DirObj _) => ∃ children', o' = Some (DirObj children')
  | Some (FileObj _) => ∃ contents', o' = Some (FileObj contents')
  | Some (LinkObj source) => o' = Some (LinkObj source)
  | None => o' = None ∨ ∃ contents', o' = Some (FileObj contents')
  end.

Definition tree_grows (children children' : gmap string obj) : Prop :=
  ∀ loc c,
    children_at children loc = Some c →
    ∃ c', children_at children' loc = Some c' ∧
          ∀ name, obj_grows (c !! name) (c' !! name).

Definition node_grows (node node' : Node) : Prop :=
  match node with
  | Directory loc _ => ∃ children', node' = Directory loc children'
  | File loc _ => ∃ contents', node' = File loc contents'
  | Link loc source => node' = Link loc source
  | DirectoryChild name parent =>
      node' = DirectoryChild name parent ∨
      ∃ contents', node' = File (parent ++ [name]) contents'
  | FileChild parent => node' = FileChild parent
  | NoSuchEntry => node' = NoSuchEntry ∨ ∃ parent, node' = FileChild parent
  end.

(** A chain of links: every path of [chain] resolves to a link whose
    stored target is the next path, the last one targeting [final]. *)
Definition link_chain (fuel : nat) (st : State) (chain : list Path)
    (final : Path) : Prop :=
  ∀ i path,
    chain !! i = Some path →
    ∃ loc source,
      State_getitem fuel st path = Some (Link loc source) ∧
      (chain ++ [final]) !! S i = Some source.

(** The relation between the node a path resolves to before and after. *)
Definition node_rel (st st' : State) (n n' : Node) : Prop :=
  valid st n ∧ valid st' n' ∧ node_grows n n'.

(** Two links in a row before a file: [a] targets [b], [b] targets [f]. *)
Definition st_abf : State :=
  mkState {["a" := LinkObj ["b"]; "b" := LinkObj ["f"]; "f" := FileObj 0]}
          [BytesIO_new []].

(** An existing directory [d], empty. *)
Definition st_d : State := mkState {["d" := DirObj ∅]} [].

(** The path that the error of an operation carries when the node cannot
    hold children: [create_directory] and [link] report the parent of the
    path ([path.parent()], [to.parent()]), the others the path itself. *)
Definition reported_path (r : request) : Path :=
  match r with
  | create_directory path => Path_parent path
  | link _ to => Path_parent to
  | _ => request_path r
  end.

(** A file [f] in the root, and a missing entry [m] beside it. *)
Definition st_f : State := mkState {["f" := FileObj 0]} [BytesIO_new []].

(** A directory [d] holding a file [f], and a link [l] to [d]. *)
Definition st_dl : State :=
  mkState {["d" := DirObj {["f" := FileObj 0]}; "l" := LinkObj ["d"]]}
          [BytesIO_new []].

(** The operations that only look: [list_directory], [readlink], and
    [open_file] when the mode is a read mode (or is refused). *)
Definition read_only (_parse_mode : string → outcome FileMode) (r : request)
  : bool :=
  match r with
  | list_directory _ | readlink _ => true
  | open_file _ mode =>
      match _parse_mode mode with
      | Return m => mode_read m
      | Raise _ => true
      end
  | _ => false
  end.

(** ** States that differ by one new object

    When an object [o] is bound to a name that was free in the directory
    at [parent], the node that a path resolves to becomes [moved ... n]:
    directory nodes carry the children they have in the new state, and the
    missing entry at that very place becomes the new object. *)
Definition moved (st' : State) (parent : list string) (name : string)
    (o : obj) (n : Node) : Node :=
  match n with
  | Directory loc _ => Directory loc (default ∅ (children_at (root st') loc))
  | DirectoryChild name' parent' =>
      if decide (parent' = parent ∧ name' = name)
      then node_of_obj (parent ++ [name]) o
      else n
  | _ => n
  end.

(** The object that a successful operation binds to the free name it was
    applied to: an empty directory, a link with the target it was given,
    or a file whose buffer is the one of the handle returned. *)
Definition created (r : request) (v : value) : obj :=
  match r, v with
  | link source _, _ => LinkObj source
  | (create_file _ | open_file _ _), VHandle h => FileObj (h_buffer h)
  | _, _ => DirObj ∅
  end.

(** An empty directory [d] in the root, and a free name [n] beside it. *)
Definition st_e : State := mkState {["d" := DirObj ∅]} [].

(** ** States that differ by one object removed

    When the name [name] is deleted from the directory at [parent], a node
    of the old state and the node that the same path resolves to in the
    new state are related by [remaining]: the new node is [_NoSuchEntry],
    or it is the free name where the removed object was, or it is the old
    node (a directory with the children it has now). *)
Definition remaining (st' : State) (parent : list string) (name : string)
    (n n' : Node) : Prop :=
  n' = NoSuchEntry ∨
  match n with
  | Directory loc _ =>
      if decide ((parent ++ [name]) `prefix_of` loc)
      then loc = parent ++ [name] ∧ n' = DirectoryChild name parent
      else n' = Directory loc (default ∅ (children_at (root st') loc))
  | File loc _ | Link loc _ =>
      if decide ((parent ++ [name]) `prefix_of` loc)
      then loc = parent ++ [name] ∧ n' = DirectoryChild name parent
      else n' = n
  | _ => n' = n
  end.

(** The place of the object that a node refers to. *)
Definition node_loc (n : Node) : list string :=
  match n with
  | Directory loc _ | File loc _ | Link loc _ => loc
  | _ => []
  end.

(** The two operations that remove an object. *)
Definition removal (r : request) : bool :=
  match r with
  | remove_file _ | remove_empty_directory _ => true
  | _ => false
  end.

(** [_State.temporary_directory]: [hex] stands for [uuid4().hex], the
    only thing the method takes from outside the state; [Path(hex)] is the
    path whose single segment is that name. *)
Definition State_temporary_directory (hex : string) (fuel : nat) (st : State)
  : option (State * outcome Path) :=
  let directory : Path := [hex] in
  match State_create_directory fuel st directory with
  | Some (st', Return _) => Some (st', Return directory)
  | Some (st', Raise e) => Some (st', Raise e)
  | None => None
  end.

(** ** The helper of the build: [get_python.py]

    Of this script only [python_name_from_version] computes; the rest
    launches programs.  A [str] is a sequence of code points, as above. *)

Definition str_of (s : string) : str :=
  N_of_ascii <$> String.list_ascii_of_string s.

Definition dash : N := N_of_ascii "-".
Definition dot : N := N_of_ascii ".".

(** [s.replace(old, new)], for [old] and [new] of one character. *)
Definition str_replace (old new : N) (s : str) : str :=
  (λ c, if decide (c = old) then new else c) <$> s.

(** [s.split(sep)], for [sep] of one character: the empty string gives one
    empty component. *)
Fixpoint str_split (sep : N) (s : str) : list str :=
  match s with
  | [] => [[]]
  | c :: s' =>
      if decide (c = sep) then [] :: str_split sep s'
      else match str_split sep s' with
           | w :: ws => (c :: w) :: ws
           | [] => [[c]]
           end
  end.

(** [sep.join(parts)] *)
Fixpoint str_join (sep : str) (parts : list str) : str :=
  match parts with
  | [] => []
  | p :: ps =>
      match ps with
      | [] => p
      | _ :: _ => p ++ sep ++ str_join sep ps
      end
  end.

(** [s.startswith(prefix)] *)
Definition startswith (s prefix : str) : bool :=
  bool_decide (take (length prefix) s = prefix).

Definition python_name_from_version (version : str) : str :=
  let version :=
    str_join [dot] (take 2 (str_split dot (str_replace dash dot version))) in
  if startswith version (str_of "pypy") then version
  else str_of "python" ++ version.

(** A component of a version: a string without dash and without dot. *)
Definition component (s : str) : Prop := (dash ∉ s) ∧ (dot ∉ s).

Definition separator (c : N) : Prop := c = dash ∨ c = dot.

(** * Properties *)

(** ** Resolution: unfolding equations and fuel *)

Lemma getitem_Directory fuel st loc children name :
  getitem fuel st (Directory loc children) name
  = Some (Directory_getitem loc children name).
Proof. by destruct fuel. Qed.

Lemma getitem_File fuel st loc contents name :
  getitem fuel st (File loc contents) name = Some (FileChild (parent_of loc)).
Proof. by destruct fuel. Qed.

Lemma getitem_DirectoryChild fuel st name' parent name :
  getitem fuel st (DirectoryChild name' parent) name = Some NoSuchEntry.
Proof. by destruct fuel. Qed.

Lemma getitem_FileChild fuel st parent name :
  getitem fuel st (FileChild parent) name = Some (FileChild parent).
Proof. by destruct fuel. Qed.

Lemma getitem_NoSuchEntry fuel st name :
  getitem fuel st NoSuchEntry name = Some NoSuchEntry.
Proof. by destruct fuel. Qed.

Lemma getitem_Link fuel st loc source name :
  getitem (S fuel) st (Link loc source) name
  = State_getitem fuel st source ≫= λ target, getitem fuel st target name.
Proof. reflexivity. Qed.

Lemma getitem_Link_0 st loc source name :
  getitem 0 st (Link loc source) name = None.
Proof. reflexivity. Qed.

Lemma walk_app g node segments segments' :
  walk g node (segments ++ segments')
  = walk g node segments ≫= λ node', walk g node' segments'.
Proof.
  revert node; induction segments as [|s segments IH]; intros node; simpl; [done|].
  destruct (g node s); simpl; auto.
Qed.

Lemma walk_ext g g' node segments r :
  (∀ n s r, g n s = Some r → g' n s = Some r) →
  walk g node segments = Some r → walk g' node segments = Some r.
Proof.
  intros Hg; revert node; induction segments as [|s segments IH]; intros node; simpl; [done|].
  destruct (g node s) as [n'|] eqn:E; [|done].
  rewrite (Hg _ _ _ E). apply IH.
Qed.

(** More fuel never changes an answer. *)
Lemma getitem_mono fuel fuel' st node name r :
  fuel ≤ fuel' →
  getitem fuel st node name = Some r → getitem fuel' st node name = Some r.
Proof.
  revert fuel' node name r; induction fuel as [|fuel IH]; intros fuel' node name r Hle.
  - destruct node; by destruct fuel'.
  - destruct fuel' as [|fuel']; [lia|].
    destruct node; try done.
    rewrite !getitem_Link. unfold State_getitem.
    destruct (walk (getitem fuel st) _ source) as [target|] eqn:E; [|done].
    simpl. intros H.
    erewrite walk_ext; [| |exact E]; [|intros; eapply IH; [lia|done]].
    simpl. eapply IH; [lia|done].
Qed.

Lemma State_getitem_mono fuel fuel' st path r :
  fuel ≤ fuel' →
  State_getitem fuel st path = Some r → State_getitem fuel' st path = Some r.
Proof.
  intros Hle. unfold State_getitem. apply walk_ext.
  intros; by eapply getitem_mono.
Qed.

Lemma State_getitem_root fuel st :
  State_getitem fuel st [] = Some (Directory [] (root st)).
Proof. reflexivity. Qed.

Lemma State_getitem_app fuel st path path' :
  State_getitem fuel st (path ++ path')
  = State_getitem fuel st path ≫= λ node, walk (getitem fuel st) node path'.
Proof. apply walk_app. Qed.

(** ** Descent below a node that does not exist *)

Lemma walk_NoSuchEntry fuel st segments :
  walk (getitem fuel st) NoSuchEntry segments = Some NoSuchEntry.
Proof.
  induction segments as [|s segments IH]; simpl; [done|].
  by rewrite getitem_NoSuchEntry.
Qed.

Lemma walk_FileChild fuel st parent segments :
  walk (getitem fuel st) (FileChild parent) segments = Some (FileChild parent).
Proof.
  induction segments as [|s segments IH]; simpl; [done|].
  by rewrite getitem_FileChild.
Qed.

(** C4, as stated, fails: the child of a [_FileChild] is that [_FileChild]
    again, not [_NoSuchEntry]; two segments below a file the path still
    resolves to [_FileChild]. *)
Lemma C4_counterexample :
  getitem 0 State_new (FileChild []) "x" = Some (FileChild []) ∧
  getitem 0 State_new (FileChild []) "x" ≠ Some NoSuchEntry ∧
  State_getitem 0 (mkState {["f" := FileObj 0]} [BytesIO_new []]) ["f"; "x"; "y"]
  = Some (FileChild []).
Proof. split_and!; [reflexivity|discriminate|reflexivity]. Qed.

(** C4, amended: one or more segments below a [_DirectoryChild] or below
    [_NoSuchEntry] the node is [_NoSuchEntry]; below a [_FileChild] it is
    the same [_FileChild]; below a [_File] it is the [_FileChild] of that
    file's directory. *)
Theorem C4_descent_below_phantom fuel st segment segments :
  (∀ name parent,
     walk (getitem fuel st) (DirectoryChild name parent) (segment :: segments)
     = Some NoSuchEntry) ∧
  walk (getitem fuel st) NoSuchEntry (segment :: segments) = Some NoSuchEntry ∧
  (∀ parent,
     walk (getitem fuel st) (FileChild parent) (segment :: segments)
     = Some (FileChild parent)) ∧
  (∀ loc contents,
     walk (getitem fuel st) (File loc contents) (segment :: segments)
     = Some (FileChild (parent_of loc))).
Proof.
  split_and!; intros; simpl.
  - rewrite getitem_DirectoryChild. apply walk_NoSuchEntry.
  - rewrite getitem_NoSuchEntry. apply walk_NoSuchEntry.
  - rewrite getitem_FileChild. apply walk_FileChild.
  - rewrite getitem_File. apply walk_FileChild.
Qed.

(** ** [create_file] where nothing can be created *)

(** C3, as stated, fails: [_NoSuchEntry.create_file] raises [FileNotFound]
    with the path itself, not with its parent. *)
Lemma C3_counterexample :
  State_getitem 0 State_new ["a"; "b"] = Some NoSuchEntry ∧
  State_create_file 0 State_new ["a"; "b"]
  = Some (State_new, Raise (FileNotFound ["a"; "b"])) ∧
  State_create_file 0 State_new ["a"; "b"]
  ≠ Some (State_new, Raise (FileNotFound (Path_parent ["a"; "b"]))).
Proof. split_and!; [reflexivity|reflexivity|discriminate]. Qed.

(** C3, amended: when [path] resolves to [_NoSuchEntry], [create_file]
    fails with [FileNotFound] carrying [path] itself, and the state is
    left as it was. *)
Theorem C3_create_file_NoSuchEntry fuel st path :
  State_getitem fuel st path = Some NoSuchEntry →
  State_create_file fuel st path = Some (st, Raise (FileNotFound path)).
Proof. intros H. unfold State_create_file. by rewrite H. Qed.

Lemma C3_create_file_NoSuchEntry_witness :
  State_create_file 0 State_new ["a"; "b"]
  = Some (State_new, Raise (FileNotFound ["a"; "b"])).
Proof. apply C3_create_file_NoSuchEntry. reflexivity. Defined.

(** A path that goes two or more segments below a missing entry of a
    directory is such a path. *)
Lemma create_file_below_missing fuel st path name parent segment segments :
  State_getitem fuel st path = Some (DirectoryChild name parent) →
  State_create_file fuel st (path ++ segment :: segments)
  = Some (st, Raise (FileNotFound (path ++ segment :: segments))).
Proof.
  intros H. unfold State_create_file.
  rewrite State_getitem_app, H. simpl.
  by rewrite getitem_DirectoryChild, walk_NoSuchEntry.
Qed.

(** ** The root *)

(** C9: the path without segments resolves to the root directory in every
    state; the root exists and is a directory; [create_directory] on it
    fails with [FileExists], [open_file] with [IsADirectory] whatever the
    mode is (when the mode string itself is refused, with the error of the
    mode parser, and the tree has not been looked at), [remove_file] with
    [PermissionError]; the state is unchanged in each case. *)
Theorem C9_root_directory _parse_mode fuel st :
  State_getitem fuel st [] = Some (Directory [] (root st)) ∧
  State_exists fuel st [] = Some true ∧
  State_is_dir fuel st [] = Some true ∧
  State_create_directory fuel st [] = Some (st, Raise (FileExists [])) ∧
  (∀ mode,
     Node_open_file fuel st (Directory [] (root st)) [] mode
     = Some (st, Raise (IsADirectory []))) ∧
  (∀ mode,
     State_open_file _parse_mode fuel st [] mode
     = Some (st, match _parse_mode mode with
                 | Return _ => Raise (IsADirectory [])
                 | Raise e => Raise e
                 end)) ∧
  State_remove_file fuel st [] = Some (st, Raise (PermissionError [])).
Proof.
  split_and!; try reflexivity.
  - by destruct fuel.
  - by destruct fuel.
  - intros mode. by destruct fuel.
  - intros mode. unfold State_open_file.
    destruct (_parse_mode mode); [|done]. by destruct fuel.
Qed.

(** ** Nodes are faithful references *)

Lemma children_at_app children loc loc' :
  children_at children (loc ++ loc')
  = children_at children loc ≫= λ children', children_at children' loc'.
Proof.
  revert children; induction loc as [|name loc IH]; intros children; simpl; [done|].
  destruct (children !! name) as [[]|]; simpl; auto.
Qed.

Lemma parent_of_snoc loc name : parent_of (loc ++ [name]) = loc.
Proof. apply removelast_last. Qed.

Lemma name_of_snoc loc name : name_of (loc ++ [name]) = name.
Proof. unfold name_of. by rewrite last_snoc. Qed.

Lemma snoc_parent_name loc :
  loc ≠ [] → loc = parent_of loc ++ [name_of loc].
Proof.
  intros Hne. destruct (decide (loc = [])) as [|_]; [done|].
  induction loc as [|loc name _] using rev_ind; [done|].
  by rewrite parent_of_snoc, name_of_snoc.
Qed.

Lemma child_at_snoc children loc name :
  child_at children (loc ++ [name])
  = children_at children loc ≫= λ children', children' !! name.
Proof. unfold child_at. by rewrite parent_of_snoc, name_of_snoc. Qed.

Lemma children_at_snoc_child children loc name :
  children_at children (loc ++ [name])
  = match child_at children (loc ++ [name]) with
    | Some (DirObj children') => Some children'
    | _ => None
    end.
Proof.
  rewrite children_at_app, child_at_snoc.
  destruct (children_at children loc) as [c|]; simpl; [|done].
  destruct (c !! name) as [[]|]; done.
Qed.

Lemma Directory_getitem_valid st loc children name :
  valid st (Directory loc children) →
  valid st (Directory_getitem loc children name).
Proof.
  simpl. intros Hloc. unfold Directory_getitem.
  destruct (children !! name) as [o|] eqn:E; simpl; [|by eauto].
  assert (child_at (root st) (loc ++ [name]) = Some o) as Hc.
  { rewrite child_at_snoc, Hloc. done. }
  destruct o; simpl.
  - by rewrite children_at_snoc_child, Hc.
  - split; [by destruct loc|done].
  - split; [by destruct loc|done].
Qed.

Lemma walk_invariant (P : Node → Prop) g node segments r :
  (∀ n s n', P n → g n s = Some n' → P n') →
  P node → walk g node segments = Some r → P r.
Proof.
  intros Hg; revert node; induction segments as [|s segments IH];
    intros node HP; simpl.
  - by intros [= <-].
  - destruct (g node s) as [n'|] eqn:E; [|done]. eauto.
Qed.

Lemma getitem_valid fuel st node name node' :
  valid st node → getitem fuel st node name = Some node' → valid st node'.
Proof.
  revert node name node'; induction fuel as [|fuel IH]; intros node name node' Hv.
  - destruct node; simpl; intros [= <-]; try done.
    by apply Directory_getitem_valid.
  - destruct node; try (simpl; intros [= <-]; try done; by apply Directory_getitem_valid).
    rewrite getitem_Link. unfold State_getitem.
    destruct (walk _ _ source) as [target|] eqn:E; [|done]. simpl.
    apply IH. eapply walk_invariant; [|  |exact E]; [apply IH|done].
Qed.

Lemma walk_valid fuel st node segments node' :
  valid st node → walk (getitem fuel st) node segments = Some node' →
  valid st node'.
Proof. apply (walk_invariant (valid st)). intros ???; apply getitem_valid. Qed.

Lemma State_getitem_valid fuel st path node :
  State_getitem fuel st path = Some node → valid st node.
Proof. apply walk_valid. done. Qed.

(** ** A failing operation leaves the state alone *)

Lemma buffer_at_alloc st b :
  buffer_at (alloc st b).1 (alloc st b).2 = b.
Proof.
  unfold buffer_at, alloc; simpl.
  by rewrite lookup_app_r, Nat.sub_diag.
Qed.

Lemma buffer_at_alloc_old st b ref :
  ref < length (buffers st) → buffer_at (alloc st b).1 ref = buffer_at st ref.
Proof.
  intros Hlt. unfold buffer_at, alloc; simpl. by rewrite lookup_app_l.
Qed.

(** [_File.open_file] cannot fail, whatever the mode. *)
Lemma File_open_file_returns st loc contents mode :
  ∃ st' h, File_open_file st loc contents mode = (st', Return h)
           ∧ h_text h = text mode.
Proof.
  unfold File_open_file.
  destruct (mode_read mode); [by eexists _, _|].
  destruct (mode_write mode); [by eexists _, _|].
  simpl. unfold buffer_at at 1, set_contents; simpl.
  rewrite lookup_app_r, Nat.sub_diag by done. simpl.
  by eexists _, _.
Qed.

Lemma File_open_file_raise st loc contents mode st' e :
  File_open_file st loc contents mode = (st', Raise e) → st' = st.
Proof.
  destruct (File_open_file_returns st loc contents mode) as (?&?&->&_). done.
Qed.

Lemma Directory_delitem_raise st loc name st' e :
  Directory_delitem st loc name = (st', Raise e) → st' = st.
Proof.
  unfold Directory_delitem.
  destruct (children_at (root st) loc) as [children|]; [|by intros [= <-]].
  destruct (children !! name); [done|by intros [= <-]].
Qed.

Lemma DirectoryChild_create_file_raise st name parent path st' e :
  DirectoryChild_create_file st name parent path = (st', Raise e) → st' = st.
Proof.
  unfold DirectoryChild_create_file.
  destruct (DirectoryChild_new_file st name parent) as [st1 contents].
  destruct (File_open_file_returns st1 (parent ++ [name]) contents
              (mkFileMode ActWrite true)) as (?&?&->&_). done.
Qed.

Lemma DirectoryChild_open_file_raise st name parent path mode st' e :
  DirectoryChild_open_file st name parent path mode = (st', Raise e) → st' = st.
Proof.
  unfold DirectoryChild_open_file.
  destruct (mode_read mode); [by intros [= <-]|].
  destruct (DirectoryChild_new_file st name parent) as [st1 contents].
  destruct (File_open_file_returns st1 (parent ++ [name]) contents mode)
    as (?&?&->&_). done.
Qed.

Lemma Node_create_directory_raise st node path st' e :
  Node_create_directory st node path = (st', Raise e) → st' = st.
Proof. destruct node; simpl; by intros [= <-]. Qed.

Lemma Node_remove_empty_directory_raise st node path st' e :
  Node_remove_empty_directory st node path = (st', Raise e) → st' = st.
Proof.
  destruct node; simpl; try by intros [= <-].
  unfold Directory_remove_empty_directory.
  destruct (negb _); [by intros [= <-]|]. apply Directory_delitem_raise.
Qed.

Lemma Node_create_file_raise st node path st' e :
  Node_create_file st node path = (st', Raise e) → st' = st.
Proof.
  destruct node; try (simpl; by intros [= <-]).
Qed.

Lemma Node_remove_file_raise st node path st' e :
  Node_remove_file st node path = (st', Raise e) → st' = st.
Proof.
  destruct node; simpl; try (by intros [= <-]); apply Directory_delitem_raise.
Qed.

Lemma Node_link_raise st node source to st' e :
  Node_link st node source to = (st', Raise e) → st' = st.
Proof. destruct node; simpl; by intros [= <-]. Qed.

Lemma Node_readlink_state st node path st' o :
  Node_readlink st node path = (st', o) → st' = st.
Proof. destruct node; simpl; by intros [= <-]. Qed.

Lemma Node_list_directory_state fuel st node path st' o :
  Node_list_directory fuel st node path = Some (st', o) → st' = st.
Proof.
  revert node; induction fuel as [|fuel IH]; intros node;
    destruct node; simpl; try (by intros [= <-]); try done.
  destruct (entry_at_source fuel st source); [apply IH|done].
Qed.

Lemma Node_open_file_raise fuel st node path mode st' e :
  Node_open_file fuel st node path mode = Some (st', Raise e) → st' = st.
Proof.
  revert node; induction fuel as [|fuel IH]; intros node;
    destruct node; simpl; try (by intros [= <-]); try done;
    try (intros [= H]; by apply File_open_file_raise in H);
    try (intros [= H]; by apply DirectoryChild_open_file_raise in H).
  destruct (entry_at_source fuel st source); [apply IH|done].
Qed.

(** C8: whatever the operation and the state, when the operation raises,
    the state (the tree and every buffer) is the one before the call. *)
Theorem C8_failure_leaves_state _parse_mode fuel st r st' e :
  perform _parse_mode fuel st r = Some (st', Raise e) → st' = st.
Proof.
  destruct r; simpl; unfold returning;
    [ unfold State_create_file | unfold State_open_file
    | unfold State_remove_file | unfold State_create_directory
    | unfold State_list_directory | unfold State_remove_empty_directory
    | unfold State_link | unfold State_readlink ].
  all: try (destruct (_parse_mode mode) as [m|e0]; simpl; [|by intros [= <-]]).
  all: match goal with
       | |- context [State_getitem ?f ?s ?p] =>
           destruct (State_getitem f s p) as [node|]; simpl; [|done]
       end.
  - destruct (Node_create_file st node path) as [st1 [h|e1]] eqn:E; simpl;
      intros [= <- <-]. by apply Node_create_file_raise in E.
  - destruct (Node_open_file fuel st node path m) as [[st1 [h|e1]]|] eqn:E;
      simpl; intros [= <- <-]. by apply Node_open_file_raise in E.
  - destruct (Node_remove_file st node path) as [st1 [h|e1]] eqn:E; simpl;
      intros [= <- <-]. by apply Node_remove_file_raise in E.
  - destruct (Node_create_directory st node path) as [st1 [h|e1]] eqn:E; simpl;
      intros [= <- <-]. by apply Node_create_directory_raise in E.
  - destruct (Node_list_directory fuel st node path) as [[st1 [h|e1]]|] eqn:E;
      simpl; intros [= <- <-]. by apply Node_list_directory_state in E.
  - destruct (Node_remove_empty_directory st node path) as [st1 [h|e1]] eqn:E;
      simpl; intros [= <- <-]. by apply Node_remove_empty_directory_raise in E.
  - destruct (Node_link st node source to) as [st1 [h|e1]] eqn:E; simpl;
      intros [= <- <-]. by apply Node_link_raise in E.
  - destruct (Node_readlink st node path) as [st1 [h|e1]] eqn:E; simpl;
      intros [= <- <-]. by apply Node_readlink_state in E.
Qed.

Lemma C8_failure_leaves_state_witness :
  perform parse_mode 1 st_dfl (remove_empty_directory ["d"])
  = Some (st_dfl, Raise (DirectoryNotEmpty ["d"]))
  ∧ st_dfl = st_dfl.
Proof.
  split; [reflexivity|].
  apply (C8_failure_leaves_state parse_mode 1 st_dfl (remove_empty_directory ["d"])
           st_dfl (DirectoryNotEmpty ["d"])).
  reflexivity.
Defined.

(** ** Rebinding one directory: what changes and what does not *)

Lemma children_at_update_dir f parent children children' :
  children_at children parent = Some children' →
  children_at (update_dir f parent children) parent = Some (f children').
Proof.
  revert children; induction parent as [|name parent IH]; intros children; simpl.
  - by intros [= ->].
  - destruct (children !! name) as [[c| |]|] eqn:E; try done.
    intros H. rewrite lookup_insert_eq. by apply IH.
Qed.

Lemma update_dir_frame f parent children children' loc :
  children_at children parent = Some children' →
  (∀ name rest,
     children_at (f children') (name :: rest) = children_at children' (name :: rest)) →
  loc ≠ parent →
  (λ m : gmap string obj, binding_of <$> m)
    <$> children_at (update_dir f parent children) loc
  = (λ m : gmap string obj, binding_of <$> m) <$> children_at children loc.
Proof.
  revert children loc; induction parent as [|name parent IH];
    intros children loc Hat Hf Hne.
  - simpl in Hat. injection Hat as ->. destruct loc as [|n rest]; [done|].
    unfold update_dir. by rewrite Hf.
  - simpl in Hat |- *.
    destruct (children !! name) as [[c| |]|] eqn:E; try done.
    destruct loc as [|n rest]; simpl.
    + f_equal. rewrite fmap_insert. apply insert_id.
      by rewrite lookup_fmap, E.
    + destruct (decide (n = name)) as [->|Hn].
      * rewrite lookup_insert_eq, E. apply IH; [done..|congruence].
      * by rewrite lookup_insert_ne.
Qed.

Lemma children_at_delete_leaf (children : gmap string obj) name name' rest :
  (∀ c, children !! name ≠ Some (DirObj c)) →
  children_at (delete name children) (name' :: rest)
  = children_at children (name' :: rest).
Proof.
  intros Hleaf. simpl. destruct (decide (name' = name)) as [->|Hn].
  - rewrite lookup_delete_eq.
    destruct (children !! name) as [[c| |]|] eqn:E; try done.
    by destruct (Hleaf c).
  - by rewrite lookup_delete_ne.
Qed.

(** ** Removal of a file or of a link *)

(** C10: when [path] resolves to a file or to a link, [remove_file]
    succeeds; in the new state the directory that held the object has lost
    exactly that name, every other directory binds the names it bound
    before to the objects it bound them to (files to the same buffers,
    links to the same targets), and no buffer has changed. *)
Theorem C10_remove_file_frame fuel st path loc :
  (∃ contents, State_getitem fuel st path = Some (File loc contents)) ∨
  (∃ source, State_getitem fuel st path = Some (Link loc source)) →
  ∃ st',
    State_remove_file fuel st path = Some (st', Return tt) ∧
    mapping_at st' (parent_of loc)
    = delete (name_of loc) <$> mapping_at st (parent_of loc) ∧
    (∀ loc', loc' ≠ parent_of loc → mapping_at st' loc' = mapping_at st loc') ∧
    buffers st' = buffers st.
Proof.
  intros H.
  assert (∃ node o,
            State_getitem fuel st path = Some node ∧
            Node_remove_file st node path = File_remove_file st loc ∧
            child_at (root st) loc = Some o ∧
            ∀ c, o ≠ DirObj c) as (node & o & Hget & Hrm & Hchild & Hleaf).
  { destruct H as [[c H]|[s H]]; pose proof (State_getitem_valid _ _ _ _ H) as [_ Hv];
      eexists _, _; split_and!; try done. }
  unfold child_at in Hchild.
  destruct (children_at (root st) (parent_of loc)) as [children|] eqn:Hat;
    [|done]. simpl in Hchild.
  eexists. split_and!.
  - unfold State_remove_file. rewrite Hget. simpl. rewrite Hrm.
    unfold File_remove_file, Directory_delitem. by rewrite Hat, Hchild.
  - unfold mapping_at. simpl.
    rewrite (children_at_update_dir _ _ _ _ Hat), Hat. simpl.
    by rewrite fmap_delete.
  - intros loc' Hne. unfold mapping_at. simpl.
    eapply update_dir_frame; [done| |done].
    intros name' rest. apply children_at_delete_leaf.
    intros c. rewrite Hchild. intros [= ->]. by eapply Hleaf.
  - done.
Qed.

Lemma C10_remove_file_frame_witness :
  ∃ st',
    State_remove_file 1 st_dfl ["d"; "l"] = Some (st', Return tt) ∧
    mapping_at st' (parent_of ["d"; "l"])
    = delete (name_of ["d"; "l"]) <$> mapping_at st_dfl (parent_of ["d"; "l"]) ∧
    (∀ loc', loc' ≠ parent_of ["d"; "l"] →
       mapping_at st' loc' = mapping_at st_dfl loc') ∧
    buffers st' = buffers st_dfl.
Proof.
  apply (C10_remove_file_frame 1 st_dfl ["d"; "l"] ["d"; "l"]).
  right. exists ["d"; "f"]. reflexivity.
Defined.

(** ** Resolution and links *)

Lemma getitem_not_Link fuel st node name :
  Node_is_link node = false → ∃ r, getitem fuel st node name = Some r.
Proof. destruct node, fuel; simpl; by eauto. Qed.

(** A link that can be followed can be indexed. *)
Lemma getitem_of_follow fuel st node name n :
  follow fuel st node = Some n → ∃ r, getitem fuel st node name = Some r.
Proof.
  revert node; induction fuel as [|fuel IH]; intros node.
  - destruct node; simpl; by eauto.
  - destruct node; try (simpl; by eauto).
    simpl follow. rewrite getitem_Link. unfold entry_at_source.
    destruct (State_getitem fuel st source) as [target|]; [|done]. apply IH.
Qed.

Lemma getitem_total st node name :
  links_end st → valid st node → ∃ fuel r, getitem fuel st node name = Some r.
Proof.
  intros Hend Hv.
  destruct (Node_is_link node) eqn:E.
  - destruct node; try done.
    destruct (Hend _ _ Hv) as (fuel & n & Hf).
    exists fuel. by eapply getitem_of_follow.
  - exists 0. by apply getitem_not_Link.
Qed.

Lemma walk_total st segments node :
  links_end st → valid st node →
  ∃ fuel r, walk (getitem fuel st) node segments = Some r.
Proof.
  intros Hend. revert node.
  induction segments as [|s segments IH]; intros node Hv; [by exists 0, node|].
  destruct (getitem_total st node s Hend Hv) as (f1 & r1 & H1).
  destruct (IH r1) as (f2 & r & H2); [by eapply getitem_valid|].
  exists (f1 `max` f2), r. simpl.
  rewrite (getitem_mono f1 _ _ _ _ _ (Nat.le_max_l f1 f2) H1).
  eapply walk_ext; [|exact H2].
  intros ???; apply getitem_mono, Nat.le_max_r.
Qed.

(** In a state where every link can be followed to a node that is not a
    link, resolution of every path ends, with a node that is the object at
    its place in the tree, and a larger depth of link following gives the
    same node. *)
Lemma State_getitem_total st path :
  links_end st →
  ∃ fuel node,
    State_getitem fuel st path = Some node ∧
    valid st node ∧
    ∀ fuel', fuel ≤ fuel' → State_getitem fuel' st path = Some node.
Proof.
  intros Hend.
  destruct (walk_total st path (Directory [] (root st)) Hend) as (fuel & r & H);
    [done|].
  exists fuel, r. split_and!; [done|by eapply State_getitem_valid|].
  intros fuel' Hle. by eapply State_getitem_mono.
Qed.

Lemma getitem_st_loop fuel name :
  getitem fuel st_loop (Link ["loop"] ["loop"]) name = None.
Proof.
  induction fuel as [|fuel IH]; [done|].
  rewrite getitem_Link. unfold State_getitem. simpl walk.
  rewrite getitem_Directory. exact IH.
Qed.

Lemma State_getitem_st_loop fuel segment segments :
  State_getitem fuel st_loop ("loop" :: segment :: segments) = None.
Proof.
  unfold State_getitem. simpl walk. rewrite getitem_Directory.
  change (Directory_getitem [] (root st_loop) "loop")
    with (Link ["loop"] ["loop"]).
  by rewrite getitem_st_loop.
Qed.

(** C2: the code at the failing input.  In the state that
    [link(source=/loop, to=/loop)] makes, resolution of [/loop/child] does
    not return a node, whatever depth of link following is allowed:
    [_Link.__getitem__] asks the state for the path of the link itself
    again.  Hence [create_file] and [create_directory] on
    [/loop/child/path] do not return either; the tests of the repository
    expect them to raise [SymbolicLoop]. *)
Theorem C2_resolution_below_a_loop fuel :
  State_getitem fuel st_loop ["loop"; "child"] = None ∧
  State_create_file fuel st_loop ["loop"; "child"; "path"] = None ∧
  State_create_directory fuel st_loop ["loop"; "child"; "path"] = None.
Proof.
  unfold State_create_file, State_create_directory.
  by rewrite !State_getitem_st_loop.
Qed.

(** ** Loops of links *)

Lemma follow_not_Link fuel st node :
  Node_is_link node = false → follow fuel st node = Some node.
Proof. by destruct node, fuel. Qed.

(** [open_file] on a node is [open_file] on the node that following the
    links leads to. *)
Lemma Node_open_file_follow fuel st node path mode :
  Node_open_file fuel st node path mode
  = follow fuel st node ≫= λ n, Node_open_file 0 st n path mode.
Proof.
  revert node; induction fuel as [|fuel IH]; intros node.
  - by destruct node.
  - destruct node; try done. simpl.
    destruct (entry_at_source fuel st source) as [target|]; [|done].
    apply IH.
Qed.

Lemma Node_list_directory_follow fuel st node path :
  Node_list_directory fuel st node path
  = follow fuel st node ≫= λ n, Node_list_directory 0 st n path.
Proof.
  revert node; induction fuel as [|fuel IH]; intros node.
  - by destruct node.
  - destruct node; try done. simpl.
    destruct (entry_at_source fuel st source) as [target|]; [|done].
    apply IH.
Qed.

Section Loop.
Variable st : State.
Variable in_loop : Path → Prop.
Hypothesis loop_closed :
  ∀ path fuel node,
    in_loop path → State_getitem fuel st path = Some node →
    ∃ loc source, node = Link loc source ∧ in_loop source.

Lemma follow_loop fuel loc source :
  in_loop source → follow fuel st (Link loc source) = None.
Proof using loop_closed.
  revert loc source; induction fuel as [|fuel IH]; intros loc source Hin;
    [done|]. simpl. unfold entry_at_source.
  destruct (State_getitem fuel st source) as [target|] eqn:E; [|done].
  destruct (loop_closed _ _ _ Hin E) as (loc' & source' & -> & Hin').
  by apply IH.
Qed.

Lemma getitem_loop fuel loc source name :
  in_loop source → getitem fuel st (Link loc source) name = None.
Proof using loop_closed.
  revert loc source; induction fuel as [|fuel IH]; intros loc source Hin;
    [done|]. rewrite getitem_Link.
  destruct (State_getitem fuel st source) as [target|] eqn:E; [|done].
  destruct (loop_closed _ _ _ Hin E) as (loc' & source' & -> & Hin').
  by apply IH.
Qed.

Lemma State_getitem_below_loop fuel path segment segments :
  in_loop path → State_getitem fuel st (path ++ segment :: segments) = None.
Proof using loop_closed.
  intros Hin. rewrite State_getitem_app.
  destruct (State_getitem fuel st path) as [node|] eqn:E; [|done].
  destruct (loop_closed _ _ _ Hin E) as (loc & source & -> & Hin').
  simpl. by rewrite getitem_loop.
Qed.

Lemma Node_open_file_loop fuel path path' node mode :
  in_loop path → State_getitem fuel st path = Some node →
  Node_open_file fuel st node path' mode = None.
Proof using loop_closed.
  intros Hin E.
  destruct (loop_closed _ _ _ Hin E) as (loc & source & -> & Hin').
  by rewrite Node_open_file_follow, follow_loop.
Qed.
End Loop.

Lemma link_cycle_closed st chain path fuel node :
  link_cycle st chain →
  path ∈ chain → State_getitem fuel st path = Some node →
  ∃ loc source, node = Link loc source ∧ source ∈ chain.
Proof.
  intros Hcycle [i Hi]%list_elem_of_lookup Hget.
  destruct (Hcycle i path Hi) as (fuel0 & loc & source & H0 & Hnext).
  exists loc, source. split; [|by eapply list_elem_of_lookup_2].
  apply (State_getitem_mono _ (fuel `max` fuel0)) in Hget; [|lia].
  apply (State_getitem_mono _ (fuel `max` fuel0)) in H0; [|lia].
  congruence.
Qed.

(** ** The engine has no [SymbolicLoop] *)

Lemma Directory_delitem_error st loc name st' e :
  Directory_delitem st loc name = (st', Raise e) → is_SymbolicLoop e = false.
Proof.
  unfold Directory_delitem.
  destruct (children_at (root st) loc) as [children|]; [|by intros [= _ <-]].
  destruct (children !! name); [done|by intros [= _ <-]].
Qed.

Lemma Node_open_file_error fuel st node path mode st' e :
  Node_open_file fuel st node path mode = Some (st', Raise e) →
  is_SymbolicLoop e = false.
Proof.
  rewrite Node_open_file_follow.
  destruct (follow fuel st node) as [n|]; [simpl|done].
  destruct n; simpl; try (by intros [= _ <-]); try done.
  - destruct (File_open_file_returns st loc contents mode) as (?&?&->&_); done.
  - unfold DirectoryChild_open_file.
    destruct (mode_read mode); [by intros [= _ <-]|].
    destruct (DirectoryChild_new_file st name parent) as [st1 contents].
    destruct (File_open_file_returns st1 (parent ++ [name]) contents mode)
      as (?&?&->&_); done.
Qed.

Lemma Node_list_directory_error fuel st node path st' e :
  Node_list_directory fuel st node path = Some (st', Raise e) →
  is_SymbolicLoop e = false.
Proof.
  rewrite Node_list_directory_follow.
  destruct (follow fuel st node) as [n|]; [simpl|done].
  destruct n; simpl; try (by intros [= _ <-]); done.
Qed.

Lemma perform_error _parse_mode fuel st r st' e :
  (∀ mode e', _parse_mode mode = Raise e' → is_SymbolicLoop e' = false) →
  perform _parse_mode fuel st r = Some (st', Raise e) →
  is_SymbolicLoop e = false.
Proof.
  intros Hparse.
  destruct r; simpl; unfold returning;
    [ unfold State_create_file | unfold State_open_file
    | unfold State_remove_file | unfold State_create_directory
    | unfold State_list_directory | unfold State_remove_empty_directory
    | unfold State_link | unfold State_readlink ].
  all: try (destruct (_parse_mode mode) as [m|e0] eqn:Em; simpl;
            [|intros [= _ <-]; by eapply Hparse]).
  all: match goal with
       | |- context [State_getitem ?f ?s ?p] =>
           destruct (State_getitem f s p) as [node|]; simpl; [|done]
       end.
  - destruct node; simpl; by intros [= _ <-].
  - destruct (Node_open_file fuel st node path m) as [[st1 [h|e1]]|] eqn:E;
      simpl; intros [= _ <-]. by eapply Node_open_file_error.
  - destruct (Node_remove_file st node path) as [st1 [h|e1]] eqn:E; simpl;
      intros [= _ <-].
    destruct node; simpl in E; try (by injection E as _ <-);
      by eapply Directory_delitem_error.
  - destruct node; simpl; by intros [= _ <-].
  - destruct (Node_list_directory fuel st node path) as [[st1 [h|e1]]|] eqn:E;
      simpl; intros [= _ <-]. by eapply Node_list_directory_error.
  - destruct (Node_remove_empty_directory st node path) as [st1 [h|e1]] eqn:E;
      simpl; intros [= _ <-].
    destruct node; simpl in E; try (by injection E as _ <-).
    unfold Directory_remove_empty_directory in E.
    destruct (negb _); [by injection E as _ <-|].
    by eapply Directory_delitem_error.
  - destruct node; simpl; by intros [= _ <-].
  - destruct node; simpl; by intros [= _ <-].
Qed.

Lemma parse_mode_error mode e :
  parse_mode mode = Raise e → is_SymbolicLoop e = false.
Proof.
  unfold parse_mode. destruct (parse_letters _ _ _); [done|]. by intros [= <-].
Qed.

(** [open_file] on a link of a chain that closes on itself, and every
    operation on a path below such a link, do not return, whatever depth
    of link following is allowed. *)
Lemma State_open_file_on_a_loop _parse_mode st chain path fuel mode :
  link_cycle st chain → path ∈ chain →
  is_raise (_parse_mode mode) = false →
  State_open_file _parse_mode fuel st path mode = None.
Proof.
  intros Hcycle Hin Hmode.
  pose proof (λ p f n, link_cycle_closed st chain p f n Hcycle) as Hclosed.
  unfold State_open_file.
  destruct (_parse_mode mode) as [m|]; [|done].
  destruct (State_getitem fuel st path) as [node|] eqn:E; [simpl|done].
  by eapply (Node_open_file_loop st (λ p, p ∈ chain)).
Qed.

Lemma perform_below_a_loop _parse_mode st chain path fuel r segment segments :
  link_cycle st chain → path ∈ chain →
  request_path r = path ++ segment :: segments →
  mode_accepted _parse_mode r = true →
  perform _parse_mode fuel st r = None.
Proof.
  intros Hcycle Hin Hpath Hmode.
  pose proof (λ p f n, link_cycle_closed st chain p f n Hcycle) as Hclosed.
  pose proof (State_getitem_below_loop st (λ p, p ∈ chain) Hclosed
                fuel path segment segments Hin) as Hnone.
  rewrite <-Hpath in Hnone.
  destruct r; simpl in *; unfold returning;
    [ unfold State_create_file | unfold State_open_file
    | unfold State_remove_file | unfold State_create_directory
    | unfold State_list_directory | unfold State_remove_empty_directory
    | unfold State_link | unfold State_readlink ];
    try (destruct (_parse_mode mode); [|done]); by rewrite Hnone.
Qed.

(** C1, as stated, fails: on a link that targets itself, [create_file]
    raises [FileExists], and it raises [SymbolicLoop] at no depth of link
    following. *)
Lemma C1_counterexample :
  State_create_file 0 st_loop ["loop"]
  = Some (st_loop, Raise (FileExists ["loop"])) ∧
  ¬ ∃ fuel st' path,
      State_create_file fuel st_loop ["loop"]
      = Some (st', Raise (SymbolicLoop path)).
Proof.
  split; [reflexivity|]. intros (fuel & st' & path & H).
  unfold State_create_file, State_getitem in H. simpl walk in H.
  rewrite getitem_Directory in H. done.
Qed.

(** C1, amended: take a chain of links that closes on itself and a path
    [path] of the chain.  [create_file] on [path] fails with [FileExists]
    for [path] and leaves the state as it was: the link is there, and
    [create_file] does not follow it. *)
Theorem C1_create_file_on_a_loop st chain path :
  link_cycle st chain →
  path ∈ chain →
  ∃ fuel0, ∀ fuel, fuel0 ≤ fuel →
    State_create_file fuel st path = Some (st, Raise (FileExists path)).
Proof.
  intros Hcycle Hin.
  apply list_elem_of_lookup in Hin as [i Hi].
  destruct (Hcycle i path Hi) as (fuel0 & loc & source & H0 & _).
  exists fuel0. intros fuel Hle. unfold State_create_file.
  by rewrite (State_getitem_mono _ _ _ _ _ Hle H0).
Qed.

Lemma link_cycle_st_loop2 : link_cycle st_loop2 [["one"]; ["two"]].
Proof.
  intros [|[|i]] path; simpl; intros [= <-].
  - by exists 0, ["one"], ["two"].
  - by exists 0, ["two"], ["one"].
Qed.

Lemma C1_create_file_on_a_loop_witness :
  ∃ fuel0, ∀ fuel, fuel0 ≤ fuel →
    State_create_file fuel st_loop2 ["one"]
    = Some (st_loop2, Raise (FileExists ["one"])).
Proof.
  apply (C1_create_file_on_a_loop st_loop2 [["one"]; ["two"]] ["one"]).
  - exact link_cycle_st_loop2.
  - apply list_elem_of_here.
Defined.

(** ** The text codec of the wrapper *)

Lemma to_N_byte_of_N n : (n < 256)%N → Byte.to_N (byte_of_N n) = n.
Proof.
  intros Hn. unfold byte_of_N.
  destruct (Byte.of_N n) as [b|] eqn:E; simpl.
  - by apply Byte.to_of_N.
  - apply Byte.of_N_None_iff in E. lia.
Qed.

Lemma continuation_byte n :
  (n < 64)%N → continuation (byte_of_N (128 + n)) = Some n.
Proof.
  intros Hn. unfold continuation. rewrite to_N_byte_of_N by lia.
  destruct (N.leb_spec 128 (128 + n)); [|lia].
  destruct (N.ltb_spec (128 + n) 192); [|lia].
  simpl. f_equal. lia.
Qed.

(** Decoding undoes the encoding of one code point, whatever follows. *)
Lemma decode_encode_char c (bs rest : list byte) :
  encode_char c = Some bs → decode (bs ++ rest) = cons c <$> decode rest.
Proof.
  unfold encode_char.
  destruct (N.ltb_spec c 128).
  { intros [= <-]. simpl. rewrite to_N_byte_of_N by lia.
    destruct (N.ltb_spec c 128); [done|lia]. }
  destruct (N.ltb_spec c 2048).
  { intros [= <-].
    cbn [app decode]. rewrite to_N_byte_of_N by lia.
    destruct (N.ltb_spec (192 + c / 64) 128); [lia|].
    destruct (N.ltb_spec (192 + c / 64) 194); [lia|].
    destruct (N.ltb_spec (192 + c / 64) 224); [|lia].
    rewrite continuation_byte by lia.
    replace ((192 + c / 64 - 192) * 64 + c mod 64)%N with c by lia. done. }
  destruct (N.ltb_spec c 65536).
  { destruct (N.leb_spec 55296 c), (N.ltb_spec c 57344); simpl; try done;
      intros [= <-]; cbn [app decode]; rewrite to_N_byte_of_N by lia.
    all: destruct (N.ltb_spec (224 + c / 4096) 128); [lia|].
    all: destruct (N.ltb_spec (224 + c / 4096) 194); [lia|].
    all: destruct (N.ltb_spec (224 + c / 4096) 224); [lia|].
    all: destruct (N.ltb_spec (224 + c / 4096) 240); [|lia].
    all: rewrite !continuation_byte by lia.
    all: replace ((224 + c / 4096 - 224) * 4096 + (c / 64) mod 64 * 64 + c mod 64)%N
           with c by lia.
    all: destruct (N.ltb_spec c 2048); [lia|].
    all: destruct (N.leb_spec 55296 c), (N.ltb_spec c 57344); simpl; try lia; done. }
  destruct (N.ltb_spec c 1114112); [|done].
  intros [= <-]; cbn [app decode]; rewrite to_N_byte_of_N by lia.
  destruct (N.ltb_spec (240 + c / 262144) 128); [lia|].
  destruct (N.ltb_spec (240 + c / 262144) 194); [lia|].
  destruct (N.ltb_spec (240 + c / 262144) 224); [lia|].
  destruct (N.ltb_spec (240 + c / 262144) 240); [lia|].
  destruct (N.ltb_spec (240 + c / 262144) 245); [|lia].
  rewrite !continuation_byte by lia.
  replace ((240 + c / 262144 - 240) * 262144 + (c / 4096) mod 64 * 4096
           + (c / 64) mod 64 * 64 + c mod 64)%N with c by lia.
  destruct (N.ltb_spec c 65536); [lia|].
  destruct (N.leb_spec 1114112 c); [lia|]. done.
Qed.

Lemma decode_encode s bs : encode s = Some bs → decode bs = Some s.
Proof.
  revert bs; induction s as [|c s IH]; intros bs; simpl; [by intros [= <-]|].
  destruct (encode_char c) as [bc|] eqn:Ec; [|done].
  destruct (encode s) as [bs'|]; [|done]. intros [= <-].
  rewrite (decode_encode_char _ _ _ Ec), (IH bs' eq_refl). done.
Qed.

Lemma encode_app s s' :
  encode (s ++ s') = bs ← encode s; bs' ← encode s'; Some (bs ++ bs').
Proof.
  induction s as [|c s IH]; simpl.
  - by destruct (encode s').
  - destruct (encode_char c) as [bc|]; [|done]. rewrite IH.
    destruct (encode s) as [bs|]; simpl; [|done].
    destruct (encode s') as [bs'|]; simpl; [|done]. by rewrite app_assoc.
Qed.

Lemma universal_newlines_id s : 13%N ∉ s → universal_newlines s = s.
Proof.
  induction s as [|c s IH]; [done|]. intros Hnot. simpl.
  destruct (N.eqb_spec c 13) as [->|_]; [by destruct Hnot; left|].
  f_equal. apply IH. intros ?. apply Hnot. by right.
Qed.

(** What was written is read back, in the same representation, when a
    text has no carriage return. *)
Lemma decoded_encoded t data bs :
  encoded t data = Return bs → plain data → decoded t bs = Return data.
Proof.
  unfold encoded, decoded.
  destruct t, data as [b|s]; simpl; try done.
  - destruct (encode s) as [bs'|] eqn:E; [|done]. intros [= <-] Hplain.
    by rewrite (decode_encode _ _ E), universal_newlines_id.
  - by intros [= <-].
Qed.

(** ** Resolution in a state where files were made or rewritten *)

Lemma obj_grows_refl o : obj_grows o o.
Proof. destruct o as [[]|]; simpl; eauto. Qed.

Lemma obj_grows_trans o o' o'' :
  obj_grows o o' → obj_grows o' o'' → obj_grows o o''.
Proof.
  destruct o as [[]|]; simpl.
  - by intros [? ->].
  - by intros [? ->].
  - by intros ->.
  - intros [->|[? ->]]; simpl; eauto.
Qed.

Lemma tree_grows_refl children : tree_grows children children.
Proof. intros loc c H. exists c. split; [done|]. intros; apply obj_grows_refl. Qed.

Lemma tree_grows_trans children children' children'' :
  tree_grows children children' → tree_grows children' children'' →
  tree_grows children children''.
Proof.
  intros H1 H2 loc c Hc.
  destruct (H1 loc c Hc) as (c' & Hc' & Ho1).
  destruct (H2 loc c' Hc') as (c'' & Hc'' & Ho2).
  exists c''. split; [done|]. intros name. by eapply obj_grows_trans.
Qed.

Lemma tree_grows_insert_file (children : gmap string obj) name contents :
  obj_grows (children !! name) (Some (FileObj contents)) →
  tree_grows children (<[name := FileObj contents]> children).
Proof.
  intros Hname loc c. destruct loc as [|n rest]; simpl.
  - intros [= <-]. eexists; split; [done|]. intros name'.
    destruct (decide (name' = name)) as [->|Hn].
    + by rewrite lookup_insert_eq.
    + rewrite lookup_insert_ne by done. apply obj_grows_refl.
  - destruct (decide (n = name)) as [->|Hn].
    + destruct (children !! name) as [[]|] eqn:E; try done.
      destruct Hname as [? [=]].
    + rewrite lookup_insert_ne by done. intros H. exists c.
      split; [done|]. intros; apply obj_grows_refl.
Qed.

Lemma tree_grows_update_dir f parent children :
  (∀ c, children_at children parent = Some c → tree_grows c (f c)) →
  tree_grows children (update_dir f parent children).
Proof.
  revert children; induction parent as [|name parent IH]; intros children Hf.
  - simpl. by apply Hf.
  - simpl in Hf |- *.
    destruct (children !! name) as [[chs| |]|] eqn:E; try apply tree_grows_refl.
    intros loc c. destruct loc as [|n rest]; simpl.
    + intros [= <-]. eexists; split; [done|]. intros name'.
      destruct (decide (name' = name)) as [->|Hn].
      * rewrite lookup_insert_eq, E. simpl. eauto.
      * rewrite lookup_insert_ne by done. apply obj_grows_refl.
    + destruct (decide (n = name)) as [->|Hn].
      * rewrite lookup_insert_eq, E. by apply IH.
      * rewrite lookup_insert_ne by done. intros H. exists c.
        split; [done|]. intros; apply obj_grows_refl.
Qed.

Lemma walk_rel (R : Node → Node → Prop) g g' segments n n' r :
  (∀ n n' s r, R n n' → g n s = Some r → ∃ r', g' n' s = Some r' ∧ R r r') →
  R n n' → walk g n segments = Some r →
  ∃ r', walk g' n' segments = Some r' ∧ R r r'.
Proof.
  intros Hg. revert n n'.
  induction segments as [|s segments IH]; intros n n' HR; simpl.
  - intros [= <-]. by exists n'.
  - destruct (g n s) as [m|] eqn:E; [|done].
    destruct (Hg _ _ _ _ HR E) as (m' & -> & HR'). by apply IH.
Qed.

Lemma Directory_getitem_grows st st' loc children children' name :
  tree_grows (root st) (root st') →
  valid st (Directory loc children) → valid st' (Directory loc children') →
  node_grows (Directory_getitem loc children name)
             (Directory_getitem loc children' name).
Proof.
  simpl. intros Hgrows Hv Hv'.
  destruct (Hgrows loc children Hv) as (c' & Hc' & Ho).
  rewrite Hv' in Hc'. injection Hc' as <-.
  specialize (Ho name). unfold Directory_getitem.
  destruct (children !! name) as [[]|]; simpl in Ho |- *.
  - destruct Ho as [? ->]. simpl. eauto.
  - destruct Ho as [? ->]. simpl. eauto.
  - by rewrite Ho.
  - destruct Ho as [->|[? ->]]; simpl; eauto.
Qed.

Lemma getitem_grows_not_Link fuel st st' n n' name r :
  tree_grows (root st) (root st') →
  node_rel st st' n n' → Node_is_link n = false →
  getitem fuel st n name = Some r →
  ∃ r', getitem fuel st' n' name = Some r' ∧ node_grows r r'.
Proof.
  intros Hgrows (Hv & Hv' & Hn) Hlink.
  destruct n; simpl in Hn; try done.
  - destruct Hn as [c' ->]. rewrite !getitem_Directory. intros [= <-].
    eexists; split; [done|]. by eapply Directory_getitem_grows.
  - destruct Hn as [c' ->]. rewrite !getitem_File. intros [= <-].
    by eexists.
  - rewrite getitem_DirectoryChild. intros [= <-].
    destruct Hn as [->|[c' ->]].
    + rewrite getitem_DirectoryChild. eexists; split; [done|]. by left.
    + rewrite getitem_File. eexists; split; [done|]. right. eauto.
  - subst n'. rewrite !getitem_FileChild. intros [= <-]. by eexists.
  - rewrite getitem_NoSuchEntry. intros [= <-].
    destruct Hn as [->|[p ->]].
    + rewrite getitem_NoSuchEntry. eexists; split; [done|]. by left.
    + rewrite getitem_FileChild. eexists; split; [done|]. right. eauto.
Qed.

Lemma getitem_grows fuel st st' n n' name r :
  tree_grows (root st) (root st') →
  node_rel st st' n n' → getitem fuel st n name = Some r →
  ∃ r', getitem fuel st' n' name = Some r' ∧ node_rel st st' r r'.
Proof.
  intros Hgrows. revert n n' name r.
  induction fuel as [|fuel IH]; intros n n' name r Hrel Hget.
  all: destruct (Node_is_link n) eqn:Hlink;
    [|destruct (getitem_grows_not_Link _ _ _ _ _ _ _ Hgrows Hrel Hlink Hget)
        as (r' & Hr' & Hg);
      exists r'; split; [done|]; destruct Hrel as (Hv & Hv' & _);
      split_and!; [by eapply getitem_valid|by eapply getitem_valid|done]].
  all: destruct n; try done.
  all: destruct Hrel as (Hv & Hv' & Hn); simpl in Hn; subst n'.
  rewrite getitem_Link in Hget |- *. unfold State_getitem in *.
  destruct (walk (getitem fuel st) _ source) as [t|] eqn:E; [|done].
  simpl in Hget.
  destruct (walk_rel (node_rel st st') (getitem fuel st) (getitem fuel st')
              source (Directory [] (root st)) (Directory [] (root st')) t)
    as (t' & -> & Ht); [by intros; eapply IH| |done|].
  { split_and!; simpl; eauto. }
  simpl. by eapply IH.
Qed.

Lemma State_getitem_grows fuel st st' path r :
  tree_grows (root st) (root st') →
  State_getitem fuel st path = Some r →
  ∃ r', State_getitem fuel st' path = Some r' ∧ node_rel st st' r r'.
Proof.
  intros Hgrows. unfold State_getitem.
  apply (walk_rel (node_rel st st')).
  - intros; by eapply getitem_grows.
  - split_and!; simpl; eauto.
Qed.

Lemma node_grows_not_Link n n' :
  node_grows n n' → Node_is_link n = false → Node_is_link n' = false.
Proof.
  destruct n; simpl; try done.
  - by intros [? ->].
  - by intros [? ->].
  - by intros [->|[? ->]].
  - by intros ->.
  - by intros [->|[? ->]].
Qed.

Lemma follow_grows fuel st st' n n' r :
  tree_grows (root st) (root st') →
  node_rel st st' n n' → follow fuel st n = Some r →
  ∃ r', follow fuel st' n' = Some r' ∧ node_rel st st' r r'.
Proof.
  intros Hgrows. revert n n' r.
  induction fuel as [|fuel IH]; intros n n' r Hrel;
    destruct (Node_is_link n) eqn:Hlink.
  - by destruct n.
  - rewrite follow_not_Link by done. intros [= <-].
    exists n'. split; [|done]. apply follow_not_Link.
    destruct Hrel as (_ & _ & Hn). by eapply node_grows_not_Link.
  - destruct n; try done.
    destruct Hrel as (Hv & Hv' & Hn); simpl in Hn; subst n'.
    simpl. unfold entry_at_source.
    destruct (State_getitem fuel st source) as [t|] eqn:E; [|done].
    destruct (State_getitem_grows _ _ _ _ _ Hgrows E) as (t' & -> & Ht).
    by apply IH.
  - rewrite follow_not_Link by done. intros [= <-].
    exists n'. split; [|done]. apply follow_not_Link.
    destruct Hrel as (_ & _ & Hn). by eapply node_grows_not_Link.
Qed.

Lemma State_follow_grows fuel st st' path r :
  tree_grows (root st) (root st') →
  State_follow fuel st path = Some r →
  ∃ r', State_follow fuel st' path = Some r' ∧ node_rel st st' r r'.
Proof.
  intros Hgrows. unfold State_follow.
  destruct (State_getitem fuel st path) as [n|] eqn:E; [simpl|done].
  destruct (State_getitem_grows _ _ _ _ _ Hgrows E) as (n' & -> & Hn).
  simpl. by apply follow_grows.
Qed.

(** ** Opening, writing, closing, reading *)

Lemma State_open_file_follow _parse_mode fuel st path mode m :
  _parse_mode mode = Return m →
  State_open_file _parse_mode fuel st path mode
  = State_follow fuel st path ≫= λ n, Node_open_file 0 st n path m.
Proof.
  intros Hm. unfold State_open_file, State_follow. rewrite Hm.
  destruct (State_getitem fuel st path) as [node|]; [simpl|done].
  apply Node_open_file_follow.
Qed.

Lemma buffer_at_set_buffer st ref b :
  ref < length (buffers st) → buffer_at (set_buffer st ref b) ref = b.
Proof.
  intros Hlt. unfold buffer_at, set_buffer. simpl.
  by rewrite list_lookup_insert_eq.
Qed.

Lemma BytesIO_write_at_end value data :
  BytesIO_write (Open value (length value)) data
  = Return (Open (value ++ data) (length (value ++ data))).
Proof.
  simpl. rewrite take_ge, drop_ge, Nat.sub_diag, length_app by lia.
  simpl. by rewrite app_nil_r.
Qed.

Lemma child_at_set_contents st loc contents ref :
  valid st (File loc contents) →
  child_at (root (set_contents st loc ref)) loc = Some (FileObj ref).
Proof.
  intros [Hne Hchild]. unfold child_at in *. simpl.
  destruct (children_at (root st) (parent_of loc)) as [c|] eqn:Hat; [|done].
  simpl in Hchild.
  rewrite (children_at_update_dir _ _ _ _ Hat). simpl.
  by rewrite Hchild, lookup_insert_eq.
Qed.

Lemma tree_grows_set_contents st loc ref :
  tree_grows (root st) (root (set_contents st loc ref)).
Proof.
  simpl. apply tree_grows_update_dir. intros c _.
  destruct (c !! name_of loc) as [[]|] eqn:E; try apply tree_grows_refl.
  apply tree_grows_insert_file. rewrite E. simpl. eauto.
Qed.

(** [_File.open_file] for writing or appending: the file gets a new
    buffer, which holds nothing (write) or what the file held (append),
    and whose position is at the end. *)
Lemma File_open_file_writing st loc contents m :
  valid st (File loc contents) → mode_read m = false →
  ∃ st1 ref,
    File_open_file st loc contents m = (st1, Return (mkHandle ref (text m))) ∧
    tree_grows (root st) (root st1) ∧
    child_at (root st1) loc = Some (FileObj ref) ∧
    ref < length (buffers st1) ∧
    let old := if mode_write m then [] else BytesIO_bytes (buffer_at st contents) in
    buffer_at st1 ref = Open old (length old).
Proof.
  intros Hv Hread. unfold File_open_file. rewrite Hread.
  destruct (mode_write m).
  - eexists _, _. split; [reflexivity|]. split_and!.
    + apply (tree_grows_set_contents (alloc st (BytesIO_new [])).1).
    + by apply (child_at_set_contents (alloc st (BytesIO_new [])).1 _ contents).
    + simpl. rewrite length_app. simpl. lia.
    + unfold buffer_at. simpl. by rewrite lookup_app_r, Nat.sub_diag.
  - simpl. unfold buffer_at at 1. simpl.
    rewrite lookup_app_r, Nat.sub_diag by done. simpl.
    eexists _, _. split; [reflexivity|]. split_and!.
    + apply (tree_grows_set_contents (alloc st (BytesIO_new [])).1).
    + by apply (child_at_set_contents (alloc st (BytesIO_new [])).1 _ contents).
    + simpl. rewrite length_insert, length_app. simpl. lia.
    + unfold buffer_at at 1. simpl.
      rewrite list_lookup_insert_eq by (rewrite length_app; simpl; lia).
      simpl. by rewrite drop_nil, app_nil_r.
Qed.

Lemma DirectoryChild_new_file_spec st name parent :
  valid st (DirectoryChild name parent) →
  ∃ st1 contents,
    DirectoryChild_new_file st name parent = (st1, contents) ∧
    valid st1 (File (parent ++ [name]) contents) ∧
    tree_grows (root st) (root st1) ∧
    buffer_at st1 contents = BytesIO_new [].
Proof.
  intros (c & Hat & Hfree). eexists _, _. split; [reflexivity|]. split_and!.
  - split; [by destruct parent|]. simpl.
    by rewrite child_at_snoc, (children_at_update_dir _ _ _ _ Hat); simpl;
      rewrite lookup_insert_eq.
  - simpl. apply tree_grows_update_dir. intros c' Hc'.
    apply tree_grows_insert_file.
    rewrite Hat in Hc'. injection Hc' as <-. rewrite Hfree. right. eauto.
  - unfold buffer_at. simpl. by rewrite lookup_app_r, Nat.sub_diag.
Qed.

(** [open_file] for writing or appending, on the node that the path leads
    to: a file, or a free name in a directory, where the file is made. *)
Lemma Node_open_file_writing st n path m :
  valid st n → file_or_missing n = true → mode_read m = false →
  ∃ st1 ref,
    Node_open_file 0 st n path m = Some (st1, Return (mkHandle ref (text m))) ∧
    tree_grows (root st) (root st1) ∧
    child_at (root st1) (file_loc n) = Some (FileObj ref) ∧
    file_loc n ≠ [] ∧
    ref < length (buffers st1) ∧
    let old := if mode_write m then [] else contents_of st n in
    buffer_at st1 ref = Open old (length old).
Proof.
  intros Hv Hfile Hread. destruct n; try done.
  - destruct (File_open_file_writing st loc contents m Hv Hread)
      as (st1 & ref & Hopen & Hgrows & Hchild & Hlt & Hbuf).
    exists st1, ref. simpl. rewrite Hopen. by destruct Hv.
  - destruct (DirectoryChild_new_file_spec st name parent Hv)
      as (sta & c0 & Hnew & Hva & Hgrowsa & Hbufa).
    destruct (File_open_file_writing sta (parent ++ [name]) c0 m Hva Hread)
      as (st1 & ref & Hopen & Hgrows & Hchild & Hlt & Hbuf).
    exists st1, ref. simpl. unfold DirectoryChild_open_file.
    rewrite Hread, Hnew, Hopen. split_and!; try done.
    + by eapply tree_grows_trans.
    + by destruct parent.
    + rewrite Hbufa in Hbuf. simpl in Hbuf. by destruct (mode_write m).
Qed.

(** [write_file] in write or append mode through any path that leads to a
    file or to a free name: afterwards the file is there, and its buffer,
    closed, holds the bytes written, after the former contents when
    appending. *)
Lemma write_file_spec _parse_mode fuel st path mode m data bs n :
  _parse_mode mode = Return m → mode_read m = false →
  encoded (text m) data = Return bs →
  State_follow fuel st path = Some n → valid st n → file_or_missing n = true →
  ∃ st1 ref,
    write_file _parse_mode fuel st path mode data = Some (st1, Return tt) ∧
    tree_grows (root st) (root st1) ∧
    child_at (root st1) (file_loc n) = Some (FileObj ref) ∧
    file_loc n ≠ [] ∧
    buffer_at st1 ref
    = Closed ((if mode_write m then [] else contents_of st n) ++ bs).
Proof.
  intros Hm Hread Henc Hfollow Hv Hfile.
  destruct (Node_open_file_writing st n path m Hv Hfile Hread)
    as (st1 & ref & Hopen & Hgrows & Hchild & Hne & Hlt & Hbuf).
  simpl in Hbuf.
  unfold write_file.
  rewrite (State_open_file_follow _ _ _ _ _ _ Hm), Hfollow.
  change (Some n ≫= λ n0, Node_open_file 0 st n0 path m)
    with (Node_open_file 0 st n path m).
  rewrite Hopen. unfold handle_write. cbn [h_buffer h_text].
  rewrite Hbuf, Henc, BytesIO_write_at_end.
  unfold handle_close. cbn [h_buffer h_text].
  rewrite buffer_at_set_buffer by done. simpl.
  eexists _, _. split; [reflexivity|]. split_and!; try done.
  rewrite buffer_at_set_buffer; [done|].
  simpl. by rewrite length_insert.
Qed.

Lemma follow_valid fuel st n r :
  valid st n → follow fuel st n = Some r → valid st r.
Proof.
  revert n; induction fuel as [|fuel IH]; intros n Hv.
  - destruct n; simpl; by intros [= <-].
  - destruct n; simpl; try by intros [= <-].
    unfold entry_at_source.
    destruct (State_getitem fuel st source) as [t|] eqn:E; [|done].
    apply IH. by eapply State_getitem_valid.
Qed.

Lemma State_follow_valid fuel st path n :
  State_follow fuel st path = Some n → valid st n.
Proof.
  unfold State_follow.
  destruct (State_getitem fuel st path) as [node|] eqn:E; [simpl|done].
  apply follow_valid. by eapply State_getitem_valid.
Qed.

(** Once the file is there, every path that led to it, or to the free name
    it took, leads to it. *)
Lemma State_follow_after fuel st st1 path n ref :
  tree_grows (root st) (root st1) →
  State_follow fuel st path = Some n → file_or_missing n = true →
  child_at (root st1) (file_loc n) = Some (FileObj ref) →
  State_follow fuel st1 path = Some (File (file_loc n) ref).
Proof.
  intros Hgrows Hfollow Hfile Hchild.
  destruct (State_follow_grows _ _ _ _ _ Hgrows Hfollow)
    as (n' & -> & _ & Hv' & Hn).
  destruct n; try done; simpl in Hn, Hchild |- *.
  - destruct Hn as [c' ->]. destruct Hv' as [_ Hv']. congruence.
  - destruct Hn as [->|[c' ->]].
    + destruct Hv' as (c & Hat & Hfree).
      rewrite child_at_snoc, Hat in Hchild. simpl in Hchild. congruence.
    + destruct Hv' as [_ Hv']. congruence.
Qed.

(** [read_file] through a path that leads to a file gives what the buffer
    of the file holds, decoded as the mode asks. *)
Lemma read_file_spec _parse_mode fuel st path mode m loc ref :
  _parse_mode mode = Return m → mode_read m = true →
  State_follow fuel st path = Some (File loc ref) →
  ∃ st',
    read_file _parse_mode fuel st path mode
    = Some (st', decoded (text m) (BytesIO_bytes (buffer_at st ref))).
Proof.
  intros Hm Hread Hfollow. unfold read_file.
  rewrite (State_open_file_follow _ _ _ _ _ _ Hm), Hfollow.
  change (Some (File loc ref) ≫= λ n0, Node_open_file 0 st n0 path m)
    with (Some (File_open_file st loc ref m)).
  unfold File_open_file. rewrite Hread.
  cbn [alloc]. unfold handle_read. cbn [h_buffer h_text].
  unfold buffer_at at 1. cbn [buffers].
  rewrite lookup_app_r, Nat.sub_diag by done.
  cbn [lookup list_lookup default id]. unfold BytesIO_new at 1.
  cbn [BytesIO_read]. rewrite drop_0.
  destruct (decoded (text m) (BytesIO_bytes (buffer_at st ref))) as [d|e];
    [|by eexists].
  unfold handle_close. cbn [h_buffer h_text].
  rewrite buffer_at_set_buffer by (cbn; rewrite length_app; simpl; lia).
  by eexists.
Qed.

Lemma mode_write_not_read m : mode_write m = true → mode_read m = false.
Proof. unfold mode_write, mode_read. by destruct (activity m). Qed.

(** Written through one path, read through another that leads to the same
    file. *)
Lemma write_then_read _parse_mode fuel st p q mw mr m m' data bs n :
  _parse_mode mw = Return m → mode_write m = true →
  _parse_mode mr = Return m' → mode_read m' = true →
  encoded (text m) data = Return bs →
  State_follow fuel st p = Some n → State_follow fuel st q = Some n →
  file_or_missing n = true →
  ∃ st1 st2,
    write_file _parse_mode fuel st p mw data = Some (st1, Return tt) ∧
    read_file _parse_mode fuel st1 q mr = Some (st2, decoded (text m') bs).
Proof.
  intros Hm Hwrite Hm' Hread Henc Hp Hq Hfile.
  destruct (write_file_spec _parse_mode fuel st p mw m data bs n)
    as (st1 & ref & Hw & Hgrows & Hchild & Hne & Hbuf);
    [done|by apply mode_write_not_read|done|done
    |by eapply State_follow_valid|done|].
  pose proof (State_follow_after _ _ _ _ _ _ Hgrows Hq Hfile Hchild) as Hq1.
  destruct (read_file_spec _parse_mode fuel st1 q mr m' _ _ Hm' Hread Hq1)
    as (st2 & Hr).
  exists st1, st2. split; [done|].
  rewrite Hr, Hbuf, Hwrite. done.
Qed.

(** ** Round trip *)




(** ** Write, then append *)

(** C6: for a path that leads to a file or to a free name in an existing
    directory, writing [x] in write mode and then [y] in append mode, each
    in the representation of its own open, leaves a file whose contents
    are the bytes of [x] followed by the bytes of [y]; a binary read
    returns exactly these bytes. *)
Theorem C6_append_composition _parse_mode fuel st path mw ma mr tw ta x y bsx bsy n :
  _parse_mode mw = Return (mkFileMode ActWrite tw) →
  _parse_mode ma = Return (mkFileMode ActAppend ta) →
  _parse_mode mr = Return (mkFileMode ActRead false) →
  encoded tw x = Return bsx → encoded ta y = Return bsy →
  State_follow fuel st path = Some n → file_or_missing n = true →
  ∃ st1 st2 st3 ref,
    write_file _parse_mode fuel st path mw x = Some (st1, Return tt) ∧
    write_file _parse_mode fuel st1 path ma y = Some (st2, Return tt) ∧
    State_follow fuel st2 path = Some (File (file_loc n) ref) ∧
    contents_of st2 (File (file_loc n) ref) = bsx ++ bsy ∧
    read_file _parse_mode fuel st2 path mr
    = Some (st3, Return (Bytes (bsx ++ bsy))).
Proof.
  intros Hmw Hma Hmr Hx Hy Hfollow Hfile.
  destruct (write_file_spec _parse_mode fuel st path mw _ x bsx n Hmw eq_refl Hx
              Hfollow (State_follow_valid _ _ _ _ Hfollow) Hfile)
    as (st1 & ref1 & Hw1 & Hgrows1 & Hchild1 & Hne & Hbuf1).
  pose proof (State_follow_after _ _ _ _ _ _ Hgrows1 Hfollow Hfile Hchild1) as Hf1.
  destruct (write_file_spec _parse_mode fuel st1 path ma _ y bsy _ Hma eq_refl Hy
              Hf1 (State_follow_valid _ _ _ _ Hf1) eq_refl)
    as (st2 & ref2 & Hw2 & Hgrows2 & Hchild2 & _ & Hbuf2).
  pose proof (State_follow_after _ _ _ _ _ _ Hgrows2 Hf1 eq_refl Hchild2) as Hf2.
  simpl in Hbuf1, Hbuf2, Hf2. rewrite Hbuf1 in Hbuf2. simpl in Hbuf2.
  destruct (read_file_spec _parse_mode fuel st2 path mr _ _ _ Hmr eq_refl Hf2)
    as (st3 & Hr).
  exists st1, st2, st3, ref2. split_and!; try done.
  - simpl. by rewrite Hbuf2.
  - rewrite Hr, Hbuf2. done.
Qed.

Lemma C6_append_composition_witness :
  ∃ st1 st2 st3 ref,
    write_file parse_mode 0 st_d ["d"; "p"] "wb" (Bytes ["s"; "o"; "m"; "e"; " "]%byte)
    = Some (st1, Return tt) ∧
    write_file parse_mode 0 st1 ["d"; "p"] "a" (Text [116; 104; 105; 110; 103; 115; 33]%N)
    = Some (st2, Return tt) ∧
    State_follow 0 st2 ["d"; "p"]
    = Some (File (file_loc (DirectoryChild "p" ["d"])) ref) ∧
    contents_of st2 (File (file_loc (DirectoryChild "p" ["d"])) ref)
    = ["s"; "o"; "m"; "e"; " "]%byte ++ ["t"; "h"; "i"; "n"; "g"; "s"; "!"]%byte ∧
    read_file parse_mode 0 st2 ["d"; "p"] "rb"
    = Some (st3, Return (Bytes (["s"; "o"; "m"; "e"; " "]%byte
                                 ++ ["t"; "h"; "i"; "n"; "g"; "s"; "!"]%byte))).
Proof.
  apply (C6_append_composition parse_mode 0 st_d ["d"; "p"] "wb" "a" "rb"
           false true
           (Bytes ["s"; "o"; "m"; "e"; " "]%byte)
           (Text [116; 104; 105; 110; 103; 115; 33]%N)
           ["s"; "o"; "m"; "e"; " "]%byte
           ["t"; "h"; "i"; "n"; "g"; "s"; "!"]%byte
           (DirectoryChild "p" ["d"])); reflexivity.
Defined.

(** ** Chains of links *)

Lemma follow_mono fuel fuel' st n r :
  fuel ≤ fuel' → follow fuel st n = Some r → follow fuel' st n = Some r.
Proof.
  revert fuel' n; induction fuel as [|fuel IH]; intros fuel' n Hle.
  - destruct n, fuel'; simpl; done.
  - destruct fuel' as [|fuel']; [lia|].
    destruct n; simpl; try done. unfold entry_at_source.
    destruct (State_getitem fuel st source) as [t|] eqn:E; [|done].
    rewrite (State_getitem_mono fuel fuel' _ _ _ ltac:(lia) E).
    apply IH. lia.
Qed.

Lemma State_follow_mono fuel fuel' st path r :
  fuel ≤ fuel' →
  State_follow fuel st path = Some r → State_follow fuel' st path = Some r.
Proof.
  intros Hle. unfold State_follow.
  destruct (State_getitem fuel st path) as [n|] eqn:E; [simpl|done].
  rewrite (State_getitem_mono _ _ _ _ _ Hle E). simpl. by apply follow_mono.
Qed.

Lemma State_follow_Link fuel st path loc source :
  State_getitem fuel st path = Some (Link loc source) →
  State_follow (S fuel) st path = State_follow fuel st source.
Proof.
  intros H. unfold State_follow at 1.
  by rewrite (State_getitem_mono fuel (S fuel) _ _ _ ltac:(lia) H).
Qed.

(** From every link of a chain, following leads where the end of the chain
    leads. *)
Lemma link_chain_follow fuel st chain final n :
  link_chain fuel st chain final →
  State_follow fuel st final = Some n →
  ∀ k i path,
    i + k = length chain → chain !! i = Some path →
    State_follow (fuel + k) st path = Some n.
Proof.
  intros Hchain Hfinal. induction k as [|k IH]; intros i path Hik Hi.
  - apply lookup_lt_Some in Hi. lia.
  - destruct (Hchain i path Hi) as (loc & source & Hget & Hnext).
    rewrite Nat.add_succ_r.
    rewrite (State_follow_Link _ _ _ loc source)
      by (eapply State_getitem_mono; [|done]; lia).
    destruct k as [|k].
    + rewrite lookup_app_r in Hnext by lia.
      replace (S i - length chain) with 0 in Hnext by lia.
      injection Hnext as <-. by rewrite Nat.add_0_r.
    + rewrite lookup_app_l in Hnext by lia.
      apply (IH (S i)); [lia|done].
Qed.

(** C7: take a chain of links, each targeting the next and the last one
    targeting a path that leads to a file.  What is written through a link
    of the chain (its head as well as any other) is what a read of the
    final path returns, and what is written through the final path is what
    a read through the link returns; [readlink] on a link of the chain
    returns the target stored in that link, which is the next path of the
    chain, not the final one. *)
Theorem C7_link_chain _parse_mode fuel st chain final loc contents
    path mw mr t data bs :
  link_chain fuel st chain final →
  State_follow fuel st final = Some (File loc contents) →
  path ∈ chain →
  _parse_mode mw = Return (mkFileMode ActWrite t) →
  _parse_mode mr = Return (mkFileMode ActRead t) →
  encoded t data = Return bs → plain data →
  (∃ st1 st2,
     write_file _parse_mode (fuel + length chain) st path mw data
     = Some (st1, Return tt) ∧
     read_file _parse_mode (fuel + length chain) st1 final mr
     = Some (st2, Return data)) ∧
  (∃ st1 st2,
     write_file _parse_mode (fuel + length chain) st final mw data
     = Some (st1, Return tt) ∧
     read_file _parse_mode (fuel + length chain) st1 path mr
     = Some (st2, Return data)) ∧
  (∀ i link,
     chain !! i = Some link →
     ∃ source,
       (chain ++ [final]) !! S i = Some source ∧
       State_readlink (fuel + length chain) st link = Some (st, Return source)).
Proof.
  intros Hchain Hfinal Hin Hmw Hmr Henc Hplain.
  assert (State_follow (fuel + length chain) st final = Some (File loc contents))
    as Hfinal' by (eapply State_follow_mono; [|done]; lia).
  assert (State_follow (fuel + length chain) st path = Some (File loc contents))
    as Hpath.
  { apply list_elem_of_lookup in Hin as [i Hi].
    pose proof (lookup_lt_Some _ _ _ Hi) as Hlt.
    eapply (State_follow_mono (fuel + (length chain - i))); [lia|].
    eapply link_chain_follow; [done|done| |done]. lia. }
  split_and!.
  - destruct (write_then_read _parse_mode _ st path final mw mr _ _ data bs _
                Hmw eq_refl Hmr eq_refl Henc Hpath Hfinal' eq_refl)
      as (st1 & st2 & Hw & Hr).
    exists st1, st2. split; [done|]. rewrite Hr. simpl.
    by rewrite (decoded_encoded _ _ _ Henc Hplain).
  - destruct (write_then_read _parse_mode _ st final path mw mr _ _ data bs _
                Hmw eq_refl Hmr eq_refl Henc Hfinal' Hpath eq_refl)
      as (st1 & st2 & Hw & Hr).
    exists st1, st2. split; [done|]. rewrite Hr. simpl.
    by rewrite (decoded_encoded _ _ _ Henc Hplain).
  - intros i link Hi.
    destruct (Hchain i link Hi) as (loc' & source & Hget & Hnext).
    exists source. split; [done|]. unfold State_readlink.
    by rewrite (State_getitem_mono fuel (fuel + length chain) _ _ _ ltac:(lia) Hget).
Qed.

Lemma link_chain_st_abf : link_chain 0 st_abf [["a"]; ["b"]] ["f"].
Proof.
  intros [|[|i]] path; simpl; intros [= <-].
  - by exists ["a"], ["b"].
  - by exists ["b"], ["f"].
Qed.

Lemma C7_link_chain_witness :
  (∃ st1 st2,
     write_file parse_mode (0 + length [["a"]; ["b"]]) st_abf ["a"] "wb"
                (Bytes ["x"]%byte)
     = Some (st1, Return tt) ∧
     read_file parse_mode (0 + length [["a"]; ["b"]]) st1 ["f"] "rb"
     = Some (st2, Return (Bytes ["x"]%byte))) ∧
  (∃ st1 st2,
     write_file parse_mode (0 + length [["a"]; ["b"]]) st_abf ["f"] "wb"
                (Bytes ["x"]%byte)
     = Some (st1, Return tt) ∧
     read_file parse_mode (0 + length [["a"]; ["b"]]) st1 ["a"] "rb"
     = Some (st2, Return (Bytes ["x"]%byte))) ∧
  (∀ i link,
     [["a"]; ["b"]] !! i = Some link →
     ∃ source,
       ([["a"]; ["b"]] ++ [["f"]]) !! S i = Some source ∧
       State_readlink (0 + length [["a"]; ["b"]]) st_abf link
       = Some (st_abf, Return source)).
Proof.
  apply (C7_link_chain parse_mode 0 st_abf [["a"]; ["b"]] ["f"] ["f"] 0
           ["a"] "wb" "rb" false (Bytes ["x"]%byte) ["x"]%byte).
  - exact link_chain_st_abf.
  - reflexivity.
  - apply list_elem_of_here.
  - reflexivity.
  - reflexivity.
  - reflexivity.
  - exact I.
Defined.

(** * Further properties of the engine *)

(** ** Rebinding one directory, in general *)

Lemma children_at_update_dir_prefix f parent children c rest :
  children_at children parent = Some c →
  children_at (update_dir f parent children) (parent ++ rest)
  = children_at (f c) rest.
Proof.
  intros Hat. by rewrite children_at_app, (children_at_update_dir _ _ _ _ Hat).
Qed.

(** Away from the directory that is rebound, every directory binds what it
    bound. *)
Lemma update_dir_frame_off f parent children loc :
  ¬ parent `prefix_of` loc →
  (λ m : gmap string obj, binding_of <$> m)
    <$> children_at (update_dir f parent children) loc
  = (λ m : gmap string obj, binding_of <$> m) <$> children_at children loc.
Proof.
  revert children loc; induction parent as [|name parent IH];
    intros children loc Hoff.
  - destruct Hoff. apply prefix_nil.
  - simpl. destruct (children !! name) as [[c| |]|] eqn:E; try done.
    destruct loc as [|n rest]; simpl.
    + f_equal. rewrite fmap_insert. apply insert_id.
      by rewrite lookup_fmap, E.
    + destruct (decide (n = name)) as [->|Hn].
      * rewrite lookup_insert_eq, E. apply IH.
        intros Hp. apply Hoff. by apply prefix_cons.
      * by rewrite lookup_insert_ne.
Qed.

Lemma update_dir_update_dir f g parent children :
  update_dir g parent (update_dir f parent children)
  = update_dir (g ∘ f) parent children.
Proof.
  revert children; induction parent as [|name parent IH]; intros children;
    simpl; [done|].
  destruct (children !! name) as [[c| |]|] eqn:E; simpl; rewrite ?E; try done.
  by rewrite lookup_insert_eq, insert_insert_eq, IH.
Qed.

Lemma update_dir_id f parent children :
  (∀ c, children_at children parent = Some c → f c = c) →
  update_dir f parent children = children.
Proof.
  revert children; induction parent as [|name parent IH]; intros children Hf;
    simpl in *; [by apply Hf|].
  destruct (children !! name) as [[c| |]|] eqn:E; try done.
  rewrite IH by done. by apply insert_id.
Qed.

(** ** The root cannot be removed *)

(** X1: [remove_empty_directory] on the root never changes anything: with
    children in the root it raises [DirectoryNotEmpty]; with an empty root
    the deletion [del self._parent[self._name]] looks for the empty name
    in the root itself and raises [KeyError]. *)
Theorem X1_root_is_never_removed fuel st :
  State_remove_empty_directory fuel st []
  = Some (st, Raise (if Nat.eqb (size (root st)) 0
                     then KeyError EmptyString
                     else DirectoryNotEmpty [])).
Proof.
  unfold State_remove_empty_directory. rewrite State_getitem_root. simpl.
  unfold Directory_remove_empty_directory.
  destruct (Nat.eqb_spec (size (root st)) 0) as [Hempty|Hne]; simpl; [|done].
  unfold Directory_delitem. simpl.
  apply map_size_empty_iff in Hempty. by rewrite Hempty, lookup_empty.
Qed.

(** ** Below a file, below a missing entry *)

Lemma Node_ops_FileChild _parse_mode fuel st parent r :
  mode_accepted _parse_mode r = true →
  State_getitem fuel st (request_path r) = Some (FileChild parent) →
  perform _parse_mode fuel st r
  = Some (st, Raise (NotADirectory (reported_path r))).
Proof.
  intros Hmode Hget.
  destruct r; simpl in *; unfold returning;
    [ unfold State_create_file | unfold State_open_file
    | unfold State_remove_file | unfold State_create_directory
    | unfold State_list_directory | unfold State_remove_empty_directory
    | unfold State_link | unfold State_readlink ];
    try (destruct (_parse_mode mode); [|done]);
    rewrite Hget; simpl; by destruct fuel.
Qed.

Lemma Node_ops_NoSuchEntry _parse_mode fuel st r :
  mode_accepted _parse_mode r = true →
  State_getitem fuel st (request_path r) = Some NoSuchEntry →
  perform _parse_mode fuel st r
  = Some (st, Raise (FileNotFound (reported_path r))).
Proof.
  intros Hmode Hget.
  destruct r; simpl in *; unfold returning;
    [ unfold State_create_file | unfold State_open_file
    | unfold State_remove_file | unfold State_create_directory
    | unfold State_list_directory | unfold State_remove_empty_directory
    | unfold State_link | unfold State_readlink ];
    try (destruct (_parse_mode mode); [|done]);
    rewrite Hget; simpl; by destruct fuel.
Qed.

(** X2: when [path] resolves to a file, every operation on a path one or
    more segments below it fails with [NotADirectory] and leaves the state
    alone; the error carries the path of the operation, or its parent for
    [create_directory] and [link].  The stat predicates are all false. *)
Theorem X2_below_a_file _parse_mode fuel st path loc contents segment segments r :
  State_getitem fuel st path = Some (File loc contents) →
  request_path r = path ++ segment :: segments →
  mode_accepted _parse_mode r = true →
  perform _parse_mode fuel st r
  = Some (st, Raise (NotADirectory (reported_path r))) ∧
  State_exists fuel st (request_path r) = Some false ∧
  State_is_dir fuel st (request_path r) = Some false ∧
  State_is_file fuel st (request_path r) = Some false ∧
  State_is_link fuel st (request_path r) = Some false.
Proof.
  intros Hget Hpath Hmode.
  assert (State_getitem fuel st (request_path r) = Some (FileChild (parent_of loc)))
    as Hbelow.
  { rewrite Hpath, State_getitem_app, Hget. simpl.
    by rewrite getitem_File, walk_FileChild. }
  split; [by eapply Node_ops_FileChild|].
  unfold State_exists, State_is_dir, State_is_file, State_is_link.
  rewrite Hbelow. simpl. by destruct fuel.
Qed.

Lemma X2_below_a_file_witness :
  perform parse_mode 0 st_f (create_directory ["f"; "x"; "y"])
  = Some (st_f, Raise (NotADirectory (reported_path (create_directory ["f"; "x"; "y"])))) ∧
  State_exists 0 st_f (request_path (create_directory ["f"; "x"; "y"])) = Some false ∧
  State_is_dir 0 st_f (request_path (create_directory ["f"; "x"; "y"])) = Some false ∧
  State_is_file 0 st_f (request_path (create_directory ["f"; "x"; "y"])) = Some false ∧
  State_is_link 0 st_f (request_path (create_directory ["f"; "x"; "y"])) = Some false.
Proof.
  apply (X2_below_a_file parse_mode 0 st_f ["f"] ["f"] 0 "x" ["y"]
           (create_directory ["f"; "x"; "y"])); reflexivity.
Defined.

(** X3: when [path] resolves to a name that is free in an existing
    directory, every operation on a path one or more segments below it
    fails with [FileNotFound] and leaves the state alone; the error
    carries the path of the operation, or its parent for
    [create_directory] and [link].  The stat predicates are all false. *)
Theorem X3_below_a_missing_entry _parse_mode fuel st path name parent
    segment segments r :
  State_getitem fuel st path = Some (DirectoryChild name parent) →
  request_path r = path ++ segment :: segments →
  mode_accepted _parse_mode r = true →
  perform _parse_mode fuel st r
  = Some (st, Raise (FileNotFound (reported_path r))) ∧
  State_exists fuel st (request_path r) = Some false ∧
  State_is_dir fuel st (request_path r) = Some false ∧
  State_is_file fuel st (request_path r) = Some false ∧
  State_is_link fuel st (request_path r) = Some false.
Proof.
  intros Hget Hpath Hmode.
  assert (State_getitem fuel st (request_path r) = Some NoSuchEntry) as Hbelow.
  { rewrite Hpath, State_getitem_app, Hget. simpl.
    by rewrite getitem_DirectoryChild, walk_NoSuchEntry. }
  split; [by eapply Node_ops_NoSuchEntry|].
  unfold State_exists, State_is_dir, State_is_file, State_is_link.
  rewrite Hbelow. simpl. by destruct fuel.
Qed.

Lemma X3_below_a_missing_entry_witness :
  perform parse_mode 0 st_f (open_file ["m"; "x"] "ab")
  = Some (st_f, Raise (FileNotFound (reported_path (open_file ["m"; "x"] "ab")))) ∧
  State_exists 0 st_f (request_path (open_file ["m"; "x"] "ab")) = Some false ∧
  State_is_dir 0 st_f (request_path (open_file ["m"; "x"] "ab")) = Some false ∧
  State_is_file 0 st_f (request_path (open_file ["m"; "x"] "ab")) = Some false ∧
  State_is_link 0 st_f (request_path (open_file ["m"; "x"] "ab")) = Some false.
Proof.
  apply (X3_below_a_missing_entry parse_mode 0 st_f ["m"] "m" [] "x" []
           (open_file ["m"; "x"] "ab")); reflexivity.
Defined.

(** ** Links are transparent to resolution and to the stat predicates *)

Lemma walk_mono fuel fuel' st node segments r :
  fuel ≤ fuel' →
  walk (getitem fuel st) node segments = Some r →
  walk (getitem fuel' st) node segments = Some r.
Proof. intros Hle. apply walk_ext. intros; by eapply getitem_mono. Qed.

(** X4: a path that goes on below a link resolves to what the same
    continuation resolves to below the stored target of the link: indexing
    a link indexes the node at its target. *)
Theorem X4_link_transparency fuel st path loc source segment segments node :
  State_getitem fuel st path = Some (Link loc source) →
  (State_getitem fuel st (source ++ segment :: segments) = Some node →
   State_getitem (S fuel) st (path ++ segment :: segments) = Some node) ∧
  (State_getitem (S fuel) st (path ++ segment :: segments) = Some node →
   State_getitem (S fuel) st (source ++ segment :: segments) = Some node).
Proof.
  intros Hlink.
  pose proof (State_getitem_mono fuel (S fuel) _ _ _ ltac:(lia) Hlink) as Hlink'.
  split.
  - rewrite !State_getitem_app, Hlink'. cbn -[getitem]. rewrite getitem_Link.
    destruct (State_getitem fuel st source) as [target|]; [cbn -[getitem]|done].
    destruct (getitem fuel st target segment) as [m|]; [|done].
    apply walk_mono. lia.
  - rewrite !State_getitem_app, Hlink'. cbn -[getitem]. rewrite getitem_Link.
    destruct (State_getitem fuel st source) as [target|] eqn:Et; [cbn -[getitem]|done].
    rewrite (State_getitem_mono fuel (S fuel) _ _ _ ltac:(lia) Et). cbn -[getitem].
    destruct (getitem fuel st target segment) as [m|] eqn:Em; [|done].
    by rewrite (getitem_mono fuel (S fuel) _ _ _ _ ltac:(lia) Em).
Qed.

Lemma X4_link_transparency_witness :
  (State_getitem 0 st_dl (["d"] ++ "f" :: []) = Some (File ["d"; "f"] 0) →
   State_getitem 1 st_dl (["l"] ++ "f" :: []) = Some (File ["d"; "f"] 0)) ∧
  (State_getitem 1 st_dl (["l"] ++ "f" :: []) = Some (File ["d"; "f"] 0) →
   State_getitem 1 st_dl (["d"] ++ "f" :: []) = Some (File ["d"; "f"] 0)).
Proof.
  apply (X4_link_transparency 0 st_dl ["l"] ["l"] ["d"] "f" []
           (File ["d"; "f"] 0)).
  reflexivity.
Defined.

(** X5: a path that resolves to a link is a link, and it exists, is a
    directory or is a file exactly when the stored target of the link does
    (one more link is followed); a link whose target is a free name is a
    link that does not exist. *)
Theorem X5_stat_through_a_link fuel st path loc source :
  State_getitem fuel st path = Some (Link loc source) →
  State_is_link fuel st path = Some true ∧
  State_exists (S fuel) st path = State_exists fuel st source ∧
  State_is_dir (S fuel) st path = State_is_dir fuel st source ∧
  State_is_file (S fuel) st path = State_is_file fuel st source ∧
  (∀ name parent,
     State_getitem fuel st source = Some (DirectoryChild name parent) →
     State_exists (S fuel) st path = Some false).
Proof.
  intros Hlink.
  pose proof (State_getitem_mono fuel (S fuel) _ _ _ ltac:(lia) Hlink) as Hlink'.
  unfold State_is_link, State_exists, State_is_dir, State_is_file.
  rewrite Hlink, Hlink'. split_and!; try done.
  intros name parent Hsource. simpl. unfold entry_at_source.
  rewrite Hsource. by destruct fuel.
Qed.

Lemma X5_stat_through_a_link_witness :
  State_is_link 0 st_dl ["l"] = Some true ∧
  State_exists 1 st_dl ["l"] = State_exists 0 st_dl ["d"] ∧
  State_is_dir 1 st_dl ["l"] = State_is_dir 0 st_dl ["d"] ∧
  State_is_file 1 st_dl ["l"] = State_is_file 0 st_dl ["d"] ∧
  (∀ name parent,
     State_getitem 0 st_dl ["d"] = Some (DirectoryChild name parent) →
     State_exists 1 st_dl ["l"] = Some false).
Proof.
  apply (X5_stat_through_a_link 0 st_dl ["l"] ["l"] ["d"]). reflexivity.
Defined.

(** ** What resolution returns is what the tree holds *)

(** X6: the node that a path resolves to is the object at its place in the
    tree: a directory node carries the children bound there, a file node
    the buffer of the file there, a link node the target stored there, and
    a missing entry names a directory that exists and a name that is free
    in it. *)
Theorem X6_resolution_is_faithful fuel st path node :
  State_getitem fuel st path = Some node →
  match node with
  | Directory loc children => children_at (root st) loc = Some children
  | File loc contents =>
      loc ≠ [] ∧ child_at (root st) loc = Some (FileObj contents)
  | Link loc source =>
      loc ≠ [] ∧ child_at (root st) loc = Some (LinkObj source)
  | DirectoryChild name parent =>
      ∃ children,
        children_at (root st) parent = Some children ∧ children !! name = None
  | FileChild _ | NoSuchEntry => True
  end.
Proof. apply State_getitem_valid. Qed.

Lemma X6_resolution_is_faithful_witness :
  ["d"; "f"] ≠ [] ∧ child_at (root st_dl) ["d"; "f"] = Some (FileObj 0).
Proof.
  apply (X6_resolution_is_faithful 1 st_dl ["l"; "f"] (File ["d"; "f"] 0)).
  reflexivity.
Defined.

(** ** Buffers are allocated, never overwritten *)

Lemma File_open_file_buffers st loc contents m st' h :
  File_open_file st loc contents m = (st', Return h) →
  (∃ b, buffers st' = buffers st ++ [b]) ∧ h_buffer h = length (buffers st).
Proof.
  unfold File_open_file.
  destruct (mode_read m); [intros [= <- <-]; simpl; eauto|].
  destruct (mode_write m); [intros [= <- <-]; simpl; eauto|].
  simpl. unfold buffer_at at 1, set_contents. simpl.
  rewrite lookup_app_r, Nat.sub_diag by done. simpl.
  intros [= <- <-]. simpl. split; [|done]. eexists.
  rewrite insert_app_r_alt, Nat.sub_diag by done. done.
Qed.

Lemma Node_open_file_buffers fuel st node path m st' o :
  Node_open_file fuel st node path m = Some (st', o) →
  ∃ new, buffers st' = buffers st ++ new ∧
         ∀ h, o = Return h →
              length (buffers st) ≤ h_buffer h < length (buffers st').
Proof.
  rewrite Node_open_file_follow.
  destruct (follow fuel st node) as [n|]; [simpl|done].
  destruct n; simpl; try (intros [= <- <-]; exists []; by rewrite app_nil_r);
    try done.
  - destruct (File_open_file_returns st loc contents m) as (st1 & h & Hopen & _).
    rewrite Hopen. intros [= <- <-].
    destruct (File_open_file_buffers _ _ _ _ _ _ Hopen) as [[b Hb] Hh].
    exists [b]. split; [done|]. intros h' [= <-]. rewrite Hb, Hh, length_app.
    simpl. lia.
  - unfold DirectoryChild_open_file.
    destruct (mode_read m); [intros [= <- <-]; exists []; by rewrite app_nil_r|].
    unfold DirectoryChild_new_file. cbn [alloc].
    destruct (File_open_file_returns
                (Directory_setitem
                   {| root := root st; buffers := buffers st ++ [BytesIO_new []] |}
                   parent name (FileObj (length (buffers st))))
                (parent ++ [name]) (length (buffers st)) m)
      as (st1 & h & Hopen & _).
    rewrite Hopen. intros [= <- <-].
    destruct (File_open_file_buffers _ _ _ _ _ _ Hopen) as [[b Hb] Hh].
    simpl in Hb, Hh. exists [BytesIO_new []; b]. split.
    + by rewrite Hb, <-app_assoc.
    + intros h' [= <-]. rewrite Hb, Hh, !length_app. simpl. lia.
Qed.

Lemma Directory_delitem_buffers st loc name st' o :
  Directory_delitem st loc name = (st', o) → buffers st' = buffers st.
Proof.
  unfold Directory_delitem.
  destruct (children_at (root st) loc) as [c|]; [|by intros [= <- _]].
  destruct (c !! name); by intros [= <- _].
Qed.

Lemma perform_buffers _parse_mode fuel st r st' o :
  perform _parse_mode fuel st r = Some (st', o) →
  ∃ new, buffers st' = buffers st ++ new ∧
         ∀ h, o = Return (VHandle h) →
              length (buffers st) ≤ h_buffer h < length (buffers st').
Proof.
  assert (∀ (o' : outcome value),
            (∀ h, o' ≠ Return (VHandle h)) →
            buffers st' = buffers st →
            ∃ new, buffers st' = buffers st ++ new ∧
                   ∀ h, o' = Return (VHandle h) →
                        length (buffers st) ≤ h_buffer h < length (buffers st'))
    as Hsame.
  { intros o' Ho Hb. exists []. rewrite app_nil_r. split; [done|].
    intros h Hh. by destruct (Ho h). }
  destruct r; simpl; unfold returning;
    [ unfold State_create_file | unfold State_open_file
    | unfold State_remove_file | unfold State_create_directory
    | unfold State_list_directory | unfold State_remove_empty_directory
    | unfold State_link | unfold State_readlink ].
  all: try (destruct (_parse_mode mode) as [m|e0]; simpl;
            [|intros [= <- <-]; by apply Hsame]).
  all: match goal with
       | |- context [State_getitem ?f ?s ?p] =>
           destruct (State_getitem f s p) as [node|]; simpl; [|done]
       end.
  - destruct (Node_create_file st node path) as [st1 o1] eqn:E. simpl.
    intros [= <- <-].
    destruct node; simpl in E;
      try (injection E as <- <-; by apply Hsame).
    assert (Node_open_file 0 st (DirectoryChild name parent) path
              (mkFileMode ActWrite true) = Some (st1, o1)) as Hopen
      by (simpl; by rewrite <-E).
    destruct (Node_open_file_buffers _ _ _ _ _ _ _ Hopen) as (new & Hb & Hh).
    exists new. split; [done|]. intros h Ho. apply Hh.
    destruct o1; by simplify_eq.
  - destruct (Node_open_file fuel st node path m) as [[st1 o1]|] eqn:E; [|done].
    simpl. intros [= <- <-].
    destruct (Node_open_file_buffers _ _ _ _ _ _ _ E) as (new & Hb & Hh).
    exists new. split; [done|]. intros h Ho. apply Hh.
    destruct o1; by simplify_eq.
  - destruct (Node_remove_file st node path) as [st1 o1] eqn:E. simpl.
    intros [= <- <-]. apply Hsame; [by destruct o1|].
    destruct node; simpl in E; try (by injection E as <- _);
      by eapply Directory_delitem_buffers.
  - destruct (Node_create_directory st node path) as [st1 o1] eqn:E. simpl.
    intros [= <- <-]. apply Hsame; [by destruct o1|].
    destruct node; simpl in E; by injection E as <- _.
  - destruct (Node_list_directory fuel st node path) as [[st1 o1]|] eqn:E; [|done].
    simpl. intros [= <- <-]. apply Hsame; [by destruct o1|].
    by rewrite (Node_list_directory_state _ _ _ _ _ _ E).
  - destruct (Node_remove_empty_directory st node path) as [st1 o1] eqn:E. simpl.
    intros [= <- <-]. apply Hsame; [by destruct o1|].
    destruct node; simpl in E; try (by injection E as <- _).
    unfold Directory_remove_empty_directory in E.
    destruct (negb _); [by injection E as <- _|].
    by eapply Directory_delitem_buffers.
  - destruct (Node_link st node source to) as [st1 o1] eqn:E. simpl.
    intros [= <- <-]. apply Hsame; [by destruct o1|].
    destruct node; simpl in E; by injection E as <- _.
  - destruct (Node_readlink st node path) as [st1 o1] eqn:E. simpl.
    intros [= <- <-]. apply Hsame; [by destruct o1|].
    by rewrite (Node_readlink_state _ _ _ _ _ E).
Qed.

(** X7: no operation of the engine alters a buffer that exists: buffers
    are only allocated.  The handle that [create_file] or [open_file]
    returns is on a buffer allocated by that call, never on one that a
    handle obtained earlier refers to. *)
Theorem X7_buffers_are_never_overwritten _parse_mode fuel st r st' o ref :
  perform _parse_mode fuel st r = Some (st', o) →
  ref < length (buffers st) →
  buffers st' !! ref = buffers st !! ref ∧
  ∀ h, o = Return (VHandle h) →
       h_buffer h ≠ ref ∧ h_buffer h < length (buffers st').
Proof.
  intros Hp Href.
  destruct (perform_buffers _ _ _ _ _ _ Hp) as (new & Hb & Hh).
  split; [by rewrite Hb, lookup_app_l|].
  intros h Ho. specialize (Hh h Ho). lia.
Qed.

Lemma X7_buffers_are_never_overwritten_witness :
  buffers (mkState (root (set_contents st_f ["f"] 1))
                   [BytesIO_new []; BytesIO_new []]) !! 0
  = buffers st_f !! 0 ∧
  ∀ h, Return (VHandle (mkHandle 1 false)) = Return (VHandle h) →
       h_buffer h ≠ 0 ∧
       h_buffer h < length (buffers (mkState (root (set_contents st_f ["f"] 1))
                                             [BytesIO_new []; BytesIO_new []])).
Proof.
  apply (X7_buffers_are_never_overwritten parse_mode 0 st_f (open_file ["f"] "wb")
           (mkState (root (set_contents st_f ["f"] 1))
                    [BytesIO_new []; BytesIO_new []])
           (Return (VHandle (mkHandle 1 false))) 0).
  - reflexivity.
  - simpl. lia.
Defined.

(** ** Operations that only look *)

(** X8: [list_directory], [readlink] and [open_file] in a read mode never
    change the tree, whether they succeed or not; unless a handle is
    returned (which takes a new buffer, a copy of the contents), the whole
    state is unchanged. *)
Theorem X8_read_only_operations _parse_mode fuel st r st' o :
  perform _parse_mode fuel st r = Some (st', o) →
  read_only _parse_mode r = true →
  root st' = root st ∧ ((∀ h, o ≠ Return (VHandle h)) → st' = st).
Proof.
  destruct r; simpl; try done; unfold returning;
    [ unfold State_open_file | unfold State_list_directory
    | unfold State_readlink ].
  - destruct (_parse_mode mode) as [m|e0]; simpl; [|by intros [= <- <-]].
    destruct (State_getitem fuel st path) as [node|]; simpl; [|done].
    rewrite Node_open_file_follow.
    destruct (follow fuel st node) as [n|]; [simpl|done].
    intros Hopen Hread.
    destruct n; simpl in Hopen; try (by injection Hopen as <- <-); try done.
    + unfold File_open_file in Hopen. rewrite Hread in Hopen.
      simpl in Hopen. injection Hopen as <- <-. split; [done|].
      intros Ho. by destruct (Ho (mkHandle (length (buffers st)) (text m))).
    + unfold DirectoryChild_open_file in Hopen. rewrite Hread in Hopen.
      simpl in Hopen. by injection Hopen as <- <-.
  - destruct (State_getitem fuel st path) as [node|]; simpl; [|done].
    destruct (Node_list_directory fuel st node path) as [[st1 o1]|] eqn:E; [|done].
    simpl. intros [= <- <-] _.
    by rewrite (Node_list_directory_state _ _ _ _ _ _ E).
  - destruct (State_getitem fuel st path) as [node|]; simpl; [|done].
    destruct (Node_readlink st node path) as [st1 o1] eqn:E.
    simpl. intros [= <- <-] _.
    by rewrite (Node_readlink_state _ _ _ _ _ E).
Qed.

Lemma X8_read_only_operations_witness :
  root st_dl = root st_dl ∧
  ((∀ h, Return (VNames {["f"]}) ≠ Return (VHandle h)) → st_dl = st_dl).
Proof.
  apply (X8_read_only_operations parse_mode 1 st_dl (list_directory ["l"])
           st_dl (Return (VNames {["f"]}))).
  - vm_compute. reflexivity.
  - reflexivity.
Defined.

(** ** Resolution after an object was bound to a free name *)

Lemma update_dir_ext f g parent children :
  (∀ c, children_at children parent = Some c → f c = g c) →
  update_dir f parent children = update_dir g parent children.
Proof.
  revert children; induction parent as [|name parent IH]; intros children Hfg;
    simpl in *; [by apply Hfg|].
  destruct (children !! name) as [[c| |]|] eqn:E; try done.
  by rewrite IH.
Qed.

Section Creation.
Variables (st st' : State) (parent : list string) (name : string) (o : obj).
Variable c : gmap string obj.
Hypothesis Hat : children_at (root st) parent = Some c.
Hypothesis Hfree : c !! name = None.
Hypothesis Hroot :
  root st' = update_dir (λ children, <[name := o]> children) parent (root st).

(** The children of a directory of the old state, in the new state. *)
Lemma creation_children loc ch :
  children_at (root st) loc = Some ch →
  ∃ ch',
    children_at (root st') loc = Some ch' ∧
    ∀ s,
      if decide (loc = parent ∧ s = name)
      then ch !! s = None ∧ ch' !! s = Some o
      else match ch !! s with
           | Some (DirObj _) => ∃ d', ch' !! s = Some (DirObj d')
           | x => ch' !! s = x
           end.
Proof using Hat Hfree Hroot.
  intros Hloc. rewrite Hroot.
  destruct (decide (parent `prefix_of` loc)) as [[rest ->]|Hoff].
  - rewrite (children_at_update_dir_prefix _ _ _ _ _ Hat).
    rewrite children_at_app, Hat in Hloc. simpl in Hloc.
    destruct rest as [|n rest].
    + simpl in Hloc |- *. injection Hloc as <-. eexists; split; [done|].
      intros s. rewrite app_nil_r.
      destruct (decide (s = name)) as [->|Hs].
      * rewrite decide_True by done. by rewrite lookup_insert_eq.
      * rewrite decide_False by (by intros [_ ?]). rewrite lookup_insert_ne by done.
        destruct (c !! s) as [[]|]; eauto.
    + assert (n ≠ name) as Hn.
      { intros ->. simpl in Hloc. by rewrite Hfree in Hloc. }
      simpl in Hloc |- *. rewrite lookup_insert_ne by done.
      rewrite Hloc. eexists; split; [done|]. intros s.
      rewrite decide_False.
      * destruct (ch !! s) as [[]|]; eauto.
      * intros [Heq _]. rewrite <-(app_nil_r parent) in Heq at 2.
        by apply app_inv_head in Heq.
  - pose proof (update_dir_frame_off (λ children, <[name := o]> children)
                  parent (root st) loc Hoff) as Hframe.
    rewrite Hloc in Hframe. simpl in Hframe.
    destruct (children_at (update_dir _ parent (root st)) loc) as [ch'|];
      [|done].
    simpl in Hframe. injection Hframe as Hframe.
    exists ch'. split; [done|]. intros s.
    rewrite decide_False by (intros [-> _]; by apply Hoff).
    assert (binding_of <$> ch' !! s = binding_of <$> ch !! s) as Hs
      by (by rewrite <-!lookup_fmap, Hframe).
    destruct (ch !! s) as [[]|], (ch' !! s) as [[]|]; simpl in Hs;
      try done; try (by injection Hs as ->); eauto.
Qed.

Lemma creation_Directory_getitem loc ch s :
  children_at (root st) loc = Some ch →
  moved st' parent name o (Directory_getitem loc ch s)
  = Directory_getitem loc (default ∅ (children_at (root st') loc)) s.
Proof using Hat Hfree Hroot.
  intros Hloc.
  destruct (creation_children loc ch Hloc) as (ch' & Hloc' & Hs).
  specialize (Hs s). rewrite Hloc'. simpl. unfold Directory_getitem.
  destruct (decide (loc = parent ∧ s = name)) as [[-> ->]|Hne].
  - destruct Hs as [-> ->]. simpl. by rewrite decide_True.
  - destruct (ch !! s) as [[d| |]|] eqn:E.
    + destruct Hs as [d' Hd']. rewrite Hd'. simpl.
      by rewrite children_at_app, Hloc'; simpl; rewrite Hd'.
    + by rewrite Hs.
    + by rewrite Hs.
    + rewrite Hs. simpl. by rewrite decide_False.
Qed.

Lemma creation_walk fuel :
  (∀ n s r,
     valid st n → getitem fuel st n s = Some r → r ≠ NoSuchEntry →
     getitem fuel st' (moved st' parent name o n) s
     = Some (moved st' parent name o r)) →
  ∀ segments n r,
    valid st n → walk (getitem fuel st) n segments = Some r →
    r ≠ NoSuchEntry →
    walk (getitem fuel st') (moved st' parent name o n) segments
    = Some (moved st' parent name o r).
Proof.
  intros Hg. induction segments as [|s segments IH]; intros n r Hv; simpl.
  - by intros [= <-].
  - destruct (getitem fuel st n s) as [m|] eqn:E; [|done].
    intros Hwalk Hr.
    assert (m ≠ NoSuchEntry) as Hm.
    { intros ->. rewrite walk_NoSuchEntry in Hwalk. by injection Hwalk as <-. }
    rewrite (Hg _ _ _ Hv E Hm). apply IH; [|done..].
    by eapply getitem_valid.
Qed.

Lemma creation_getitem fuel n s r :
  valid st n → getitem fuel st n s = Some r → r ≠ NoSuchEntry →
  getitem fuel st' (moved st' parent name o n) s
  = Some (moved st' parent name o r).
Proof using Hat Hfree Hroot.
  revert n s r. induction fuel as [|fuel IH]; intros n s r Hv.
  all: destruct n; simpl moved;
    rewrite ?getitem_Directory, ?getitem_File, ?getitem_DirectoryChild,
      ?getitem_FileChild, ?getitem_NoSuchEntry;
    try (intros [= <-] Hr; try done; f_equal; symmetry;
         by apply creation_Directory_getitem).
  rewrite !getitem_Link. unfold State_getitem.
  destruct (walk (getitem fuel st) _ source) as [t|] eqn:E; [|done].
  cbn -[getitem moved]. intros Hget Hr.
  assert (t ≠ NoSuchEntry) as Ht.
  { intros ->. rewrite getitem_NoSuchEntry in Hget. by injection Hget as <-. }
  pose proof (creation_walk fuel IH source (Directory [] (root st)) t eq_refl
                E Ht) as Hwalk.
  simpl moved in Hwalk at 1. rewrite Hwalk. cbn -[getitem moved].
  apply IH; [|done..]. eapply walk_valid; [|exact E]. done.
Qed.

Lemma creation_State_getitem fuel path r :
  State_getitem fuel st path = Some r → r ≠ NoSuchEntry →
  State_getitem fuel st' path = Some (moved st' parent name o r).
Proof using Hat Hfree Hroot.
  intros Hget Hr.
  apply (creation_walk fuel (creation_getitem fuel) path
           (Directory [] (root st)) r eq_refl Hget Hr).
Qed.
End Creation.

Lemma creation_follow st st' parent name o c :
  children_at (root st) parent = Some c → c !! name = None →
  root st' = update_dir (λ children, <[name := o]> children) parent (root st) →
  ∀ fuel n r,
    valid st n → follow fuel st n = Some r → r ≠ NoSuchEntry →
    Node_is_link (moved st' parent name o r) = false →
    follow fuel st' (moved st' parent name o n) = Some (moved st' parent name o r).
Proof.
  intros Hat Hfree Hroot. induction fuel as [|fuel IH]; intros n r Hv.
  all: destruct (Node_is_link n) eqn:Hlink;
    [|rewrite (follow_not_Link _ st) by done; intros [= <-] _ Hr;
      by apply follow_not_Link].
  all: destruct n; try done.
  simpl. unfold entry_at_source.
  destruct (State_getitem fuel st source) as [t|] eqn:E; [|done].
  intros Hfollow Hr Hnl.
  assert (t ≠ NoSuchEntry) as Ht.
  { intros ->. rewrite follow_not_Link in Hfollow by done.
    by injection Hfollow as <-. }
  rewrite (creation_State_getitem st st' parent name o c Hat Hfree Hroot
             fuel source t E Ht).
  apply IH; [|done..]. by eapply State_getitem_valid.
Qed.

Lemma creation_State_follow st st' parent name o c fuel path r :
  children_at (root st) parent = Some c → c !! name = None →
  root st' = update_dir (λ children, <[name := o]> children) parent (root st) →
  State_follow fuel st path = Some r → r ≠ NoSuchEntry →
  Node_is_link (moved st' parent name o r) = false →
  State_follow fuel st' path = Some (moved st' parent name o r).
Proof.
  intros Hat Hfree Hroot. unfold State_follow.
  destruct (State_getitem fuel st path) as [n|] eqn:E; [simpl|done].
  intros Hfollow Hr Hnl.
  assert (n ≠ NoSuchEntry) as Hn.
  { intros ->. rewrite follow_not_Link in Hfollow by done.
    by injection Hfollow as <-. }
  rewrite (creation_State_getitem st st' parent name o c Hat Hfree Hroot
             fuel path n E Hn). simpl.
  eapply creation_follow; try done. by eapply State_getitem_valid.
Qed.

(** What the tree is after an operation succeeded on a free name. *)
Lemma perform_creates _parse_mode fuel st r name parent st' v :
  State_getitem fuel st (request_path r) = Some (DirectoryChild name parent) →
  perform _parse_mode fuel st r = Some (st', Return v) →
  root st'
  = update_dir (λ children, <[name := created r v]> children) parent (root st).
Proof.
  intros Hget.
  assert (∀ m st1 h,
            mode_read m = false →
            DirectoryChild_open_file st name parent (request_path r) m
            = (st1, Return h) →
            root st1
            = update_dir (λ children, <[name := FileObj (h_buffer h)]> children)
                parent (root st)) as Hfile.
  { intros m st1 h Hread. unfold DirectoryChild_open_file. rewrite Hread.
    unfold DirectoryChild_new_file. cbn [alloc].
    intros Hopen.
    assert (root st1
            = root (set_contents
                      (Directory_setitem
                         {| root := root st;
                            buffers := buffers st ++ [BytesIO_new []] |}
                         parent name (FileObj (length (buffers st))))
                      (parent ++ [name]) (h_buffer h))) as Hst1.
    { unfold File_open_file in Hopen. rewrite Hread in Hopen.
      destruct (mode_write m).
      - cbn [alloc] in Hopen. by injection Hopen as <- <-.
      - cbn [alloc] in Hopen.
        destruct (BytesIO_write _ _); by simplify_eq. }
    rewrite Hst1. simpl.
    rewrite parent_of_snoc, name_of_snoc, update_dir_update_dir.
    apply update_dir_ext. intros c _. simpl.
    by rewrite lookup_insert_eq, insert_insert_eq. }
  destruct r; simpl in Hget |- *; unfold returning;
    [ unfold State_create_file | unfold State_open_file
    | unfold State_remove_file | unfold State_create_directory
    | unfold State_list_directory | unfold State_remove_empty_directory
    | unfold State_link | unfold State_readlink ].
  all: try (destruct (_parse_mode mode) as [m|e0]; simpl; [|done]).
  all: rewrite Hget; simpl.
  - intros [= <- <-].
    exact (Hfile (mkFileMode ActWrite true) _ _ eq_refl eq_refl).
  - rewrite Node_open_file_follow, follow_not_Link by done. simpl.
    destruct (DirectoryChild_open_file st name parent path m) as [st1 [h|e]] eqn:E;
      simpl; intros ?; simplify_eq.
    destruct (mode_read m) eqn:Hread; [|by eapply Hfile].
    unfold DirectoryChild_open_file in E. by rewrite Hread in E.
  - done.
  - by intros [= <- <-].
  - by destruct fuel.
  - done.
  - by intros [= <- <-].
  - done.
Qed.

Lemma children_at_insert_new (c : gmap string obj) name o n rest :
  c !! name = None →
  (∀ d, o = DirObj d → d = ∅) →
  n :: rest ≠ [name] →
  children_at (<[name := o]> c) (n :: rest) = children_at c (n :: rest).
Proof.
  intros Hfree Hleaf Hne. simpl.
  destruct (decide (n = name)) as [->|Hn]; [|by rewrite lookup_insert_ne].
  rewrite lookup_insert_eq, Hfree.
  destruct o as [d| |]; try done.
  rewrite (Hleaf d eq_refl). destruct rest as [|m rest]; [done|].
  simpl. by rewrite lookup_empty.
Qed.

Lemma created_leaf r v d : created r v = DirObj d → d = ∅.
Proof. destruct r, v; simpl; by intros [= <-]. Qed.

Lemma State_list_directory_follow fuel st path :
  State_list_directory fuel st path
  = State_follow fuel st path ≫= λ n, Node_list_directory 0 st n path.
Proof.
  unfold State_list_directory, State_follow.
  destruct (State_getitem fuel st path) as [node|]; [simpl|done].
  apply Node_list_directory_follow.
Qed.

(** ** What a successful creation changes *)

(** X9: when an operation succeeds on a path that resolved to a free name
    of an existing directory ([create_directory], [create_file],
    [open_file] for writing or appending, [link]), the path now resolves
    to the object made (an empty directory, a file on the buffer of the
    handle returned, a link with the target given); the directory binds
    that one name more and every other directory binds what it bound;
    every path that resolved to a file or to a link resolves to it as
    before; and [list_directory], through any path that leads to the
    directory, returns the former names and the new one. *)
Theorem X9_creation _parse_mode fuel st r name parent st' v :
  State_getitem fuel st (request_path r) = Some (DirectoryChild name parent) →
  perform _parse_mode fuel st r = Some (st', Return v) →
  State_getitem fuel st' (request_path r)
  = Some (node_of_obj (parent ++ [name]) (created r v)) ∧
  mapping_at st' parent
  = (λ m, <[name := binding_of (created r v)]> m) <$> mapping_at st parent ∧
  (∀ loc, loc ≠ parent → loc ≠ parent ++ [name] →
          mapping_at st' loc = mapping_at st loc) ∧
  (∀ q loc contents,
     State_getitem fuel st q = Some (File loc contents) →
     State_getitem fuel st' q = Some (File loc contents)) ∧
  (∀ q loc source,
     State_getitem fuel st q = Some (Link loc source) →
     State_getitem fuel st' q = Some (Link loc source)) ∧
  (∀ q children,
     State_follow fuel st q = Some (Directory parent children) →
     State_list_directory fuel st' q
     = Some (st', Return ({[name]} ∪ dom children))).
Proof.
  intros Hget Hperform.
  pose proof (perform_creates _ _ _ _ _ _ _ _ Hget Hperform) as Hroot.
  destruct (State_getitem_valid _ _ _ _ Hget) as (c & Hat & Hfree).
  pose proof (creation_State_getitem st st' parent name (created r v) c
                Hat Hfree Hroot fuel) as Hmoved.
  split_and!.
  - rewrite (Hmoved _ _ Hget) by done. simpl. by rewrite decide_True.
  - unfold mapping_at. rewrite Hroot, (children_at_update_dir _ _ _ _ Hat), Hat.
    simpl. by rewrite fmap_insert.
  - intros loc Hne1 Hne2. unfold mapping_at. rewrite Hroot.
    destruct (decide (parent `prefix_of` loc)) as [[rest ->]|Hoff];
      [|by apply update_dir_frame_off].
    rewrite (children_at_update_dir_prefix _ _ _ _ _ Hat), children_at_app, Hat.
    simpl. destruct rest as [|n rest]; [by rewrite app_nil_r in Hne1|].
    rewrite children_at_insert_new; [done|done|apply created_leaf|congruence].
  - intros q loc contents Hq. by rewrite (Hmoved _ _ Hq).
  - intros q loc source Hq. by rewrite (Hmoved _ _ Hq).
  - intros q children Hq.
    pose proof (State_follow_valid _ _ _ _ Hq) as Hv. simpl in Hv.
    rewrite Hat in Hv. injection Hv as <-.
    rewrite State_list_directory_follow.
    rewrite (creation_State_follow st st' parent name (created r v) c fuel q
               _ Hat Hfree Hroot Hq) by done.
    simpl. rewrite Hroot, (children_at_update_dir _ _ _ _ Hat). simpl.
    by rewrite dom_insert_L.
Qed.

Lemma X9_creation_witness :
  State_getitem 0 (mkState {["d" := DirObj {["n" := DirObj ∅]}]} [])
                (request_path (create_directory ["d"; "n"]))
  = Some (node_of_obj (["d"] ++ ["n"]) (created (create_directory ["d"; "n"]) VNone)) ∧
  mapping_at (mkState {["d" := DirObj {["n" := DirObj ∅]}]} []) ["d"]
  = (λ m, <["n" := binding_of (created (create_directory ["d"; "n"]) VNone)]> m)
      <$> mapping_at st_e ["d"] ∧
  (∀ loc, loc ≠ ["d"] → loc ≠ ["d"] ++ ["n"] →
          mapping_at (mkState {["d" := DirObj {["n" := DirObj ∅]}]} []) loc
          = mapping_at st_e loc) ∧
  (∀ q loc contents,
     State_getitem 0 st_e q = Some (File loc contents) →
     State_getitem 0 (mkState {["d" := DirObj {["n" := DirObj ∅]}]} []) q
     = Some (File loc contents)) ∧
  (∀ q loc source,
     State_getitem 0 st_e q = Some (Link loc source) →
     State_getitem 0 (mkState {["d" := DirObj {["n" := DirObj ∅]}]} []) q
     = Some (Link loc source)) ∧
  (∀ q children,
     State_follow 0 st_e q = Some (Directory ["d"] children) →
     State_list_directory 0 (mkState {["d" := DirObj {["n" := DirObj ∅]}]} []) q
     = Some (mkState {["d" := DirObj {["n" := DirObj ∅]}]} [],
             Return ({["n"]} ∪ dom children))).
Proof.
  apply (X9_creation parse_mode 0 st_e (create_directory ["d"; "n"]) "n" ["d"]
           (mkState {["d" := DirObj {["n" := DirObj ∅]}]} []) VNone);
    reflexivity.
Defined.

(** ** Made, then removed *)

Lemma State_eta st : mkState (root st) (buffers st) = st.
Proof. by destruct st. Qed.

(** Deleting the name that was just bound gives the former tree back. *)
Lemma delete_after_create st st' parent name o c :
  children_at (root st) parent = Some c → c !! name = None →
  root st' = update_dir (λ children, <[name := o]> children) parent (root st) →
  Directory_delitem st' parent name
  = (mkState (root st) (buffers st'), Return tt).
Proof.
  intros Hat Hfree Hroot. unfold Directory_delitem.
  rewrite Hroot, (children_at_update_dir _ _ _ _ Hat), lookup_insert_eq.
  rewrite update_dir_update_dir, update_dir_id; [done|].
  intros c' Hc'. rewrite Hat in Hc'. injection Hc' as <-. simpl.
  by apply delete_insert_id.
Qed.

(** X10: [create_directory] on a path that resolves to a free name of an
    existing directory makes an empty directory there: afterwards the path
    exists and is a directory, lists no name, and cannot be created again
    ([FileExists]); [remove_empty_directory] on it then gives back exactly
    the state before the creation. *)
Theorem X10_create_directory_round_trip fuel st path name parent :
  State_getitem fuel st path = Some (DirectoryChild name parent) →
  ∃ st',
    State_create_directory fuel st path = Some (st', Return tt) ∧
    State_exists fuel st' path = Some true ∧
    State_is_dir fuel st' path = Some true ∧
    State_list_directory fuel st' path = Some (st', Return ∅) ∧
    State_create_directory fuel st' path = Some (st', Raise (FileExists path)) ∧
    State_remove_empty_directory fuel st' path = Some (st, Return tt).
Proof.
  intros Hget. exists (Directory_setitem st parent name (DirObj ∅)).
  destruct (State_getitem_valid _ _ _ _ Hget) as (c & Hat & Hfree).
  assert (State_getitem fuel (Directory_setitem st parent name (DirObj ∅)) path
          = Some (Directory (parent ++ [name]) ∅)) as Hget'.
  { rewrite (creation_State_getitem
               st (Directory_setitem st parent name (DirObj ∅)) parent name
               (DirObj ∅) c Hat Hfree eq_refl fuel path _ Hget) by done.
    simpl. by rewrite decide_True. }
  unfold State_create_directory, State_exists, State_is_dir,
    State_list_directory, State_remove_empty_directory.
  rewrite Hget, Hget'. simpl. split_and!; try done; try (by destruct fuel).
  unfold Directory_remove_empty_directory. simpl.
  rewrite parent_of_snoc, name_of_snoc.
  rewrite (delete_after_create
             st (Directory_setitem st parent name (DirObj ∅)) parent name
             (DirObj ∅) c Hat Hfree eq_refl).
  simpl. by rewrite State_eta.
Qed.

Lemma X10_create_directory_round_trip_witness :
  ∃ st',
    State_create_directory 0 st_e ["d"; "n"] = Some (st', Return tt) ∧
    State_exists 0 st' ["d"; "n"] = Some true ∧
    State_is_dir 0 st' ["d"; "n"] = Some true ∧
    State_list_directory 0 st' ["d"; "n"] = Some (st', Return ∅) ∧
    State_create_directory 0 st' ["d"; "n"]
    = Some (st', Raise (FileExists ["d"; "n"])) ∧
    State_remove_empty_directory 0 st' ["d"; "n"] = Some (st_e, Return tt).
Proof.
  apply (X10_create_directory_round_trip 0 st_e ["d"; "n"] "n" ["d"]).
  reflexivity.
Defined.

(** X11: [link] on a path that resolves to a free name of an existing
    directory stores the target as it is given: afterwards [readlink]
    returns that very target and the path is a link; [link],
    [create_file] and [create_directory] on it fail with [FileExists];
    [remove_empty_directory] fails with [NotADirectory] whatever the link
    targets; [remove_file] then gives back exactly the state before. *)
Theorem X11_link_round_trip fuel st source to name parent :
  State_getitem fuel st to = Some (DirectoryChild name parent) →
  ∃ st',
    State_link fuel st source to = Some (st', Return tt) ∧
    State_readlink fuel st' to = Some (st', Return source) ∧
    State_is_link fuel st' to = Some true ∧
    (∀ source', State_link fuel st' source' to
                = Some (st', Raise (FileExists to))) ∧
    State_create_file fuel st' to = Some (st', Raise (FileExists to)) ∧
    State_create_directory fuel st' to = Some (st', Raise (FileExists to)) ∧
    State_remove_empty_directory fuel st' to
    = Some (st', Raise (NotADirectory to)) ∧
    State_remove_file fuel st' to = Some (st, Return tt).
Proof.
  intros Hget. exists (Directory_setitem st parent name (LinkObj source)).
  destruct (State_getitem_valid _ _ _ _ Hget) as (c & Hat & Hfree).
  assert (State_getitem fuel (Directory_setitem st parent name (LinkObj source)) to
          = Some (Link (parent ++ [name]) source)) as Hget'.
  { rewrite (creation_State_getitem
               st (Directory_setitem st parent name (LinkObj source)) parent
               name (LinkObj source) c Hat Hfree eq_refl fuel to _ Hget)
      by done.
    simpl. by rewrite decide_True. }
  unfold State_link, State_readlink, State_is_link, State_create_file,
    State_create_directory, State_remove_empty_directory, State_remove_file.
  rewrite Hget, Hget'. simpl. split_and!; try done.
  unfold File_remove_file. rewrite parent_of_snoc, name_of_snoc.
  rewrite (delete_after_create
             st (Directory_setitem st parent name (LinkObj source)) parent
             name (LinkObj source) c Hat Hfree eq_refl).
  simpl. by rewrite State_eta.
Qed.

Lemma X11_link_round_trip_witness :
  ∃ st',
    State_link 0 st_e ["elsewhere"] ["d"; "n"] = Some (st', Return tt) ∧
    State_readlink 0 st' ["d"; "n"] = Some (st', Return ["elsewhere"]) ∧
    State_is_link 0 st' ["d"; "n"] = Some true ∧
    (∀ source', State_link 0 st' source' ["d"; "n"]
                = Some (st', Raise (FileExists ["d"; "n"]))) ∧
    State_create_file 0 st' ["d"; "n"]
    = Some (st', Raise (FileExists ["d"; "n"])) ∧
    State_create_directory 0 st' ["d"; "n"]
    = Some (st', Raise (FileExists ["d"; "n"])) ∧
    State_remove_empty_directory 0 st' ["d"; "n"]
    = Some (st', Raise (NotADirectory ["d"; "n"])) ∧
    State_remove_file 0 st' ["d"; "n"] = Some (st_e, Return tt).
Proof.
  apply (X11_link_round_trip 0 st_e ["elsewhere"] ["d"; "n"] "n" ["d"]).
  reflexivity.
Defined.

(** X12: [create_file] on a path that resolves to a free name of an
    existing directory returns a text handle on the empty buffer of the
    new file: afterwards the path is a file, [create_file] on it fails
    with [FileExists], and [remove_file] gives back the tree before the
    creation (the buffers stay allocated). *)
Theorem X12_create_file fuel st path name parent :
  State_getitem fuel st path = Some (DirectoryChild name parent) →
  ∃ st' h,
    State_create_file fuel st path = Some (st', Return h) ∧
    h_text h = true ∧
    State_getitem fuel st' path = Some (File (parent ++ [name]) (h_buffer h)) ∧
    buffer_at st' (h_buffer h) = BytesIO_new [] ∧
    State_is_file fuel st' path = Some true ∧
    State_create_file fuel st' path = Some (st', Raise (FileExists path)) ∧
    State_remove_file fuel st' path
    = Some (mkState (root st) (buffers st'), Return tt).
Proof.
  intros Hget.
  pose proof (State_getitem_valid _ _ _ _ Hget) as Hv.
  destruct (Node_open_file_writing st (DirectoryChild name parent) path
              (mkFileMode ActWrite true) Hv eq_refl eq_refl)
    as (st' & ref & Hopen & _ & _ & _ & _ & Hbuf).
  exists st', (mkHandle ref true).
  assert (State_create_file fuel st path = Some (st', Return (mkHandle ref true)))
    as Hcreate.
  { unfold State_create_file. rewrite Hget. exact Hopen. }
  assert (perform (λ _, Raise ValueError) fuel st (create_file path)
          = Some (st', Return (VHandle (mkHandle ref true)))) as Hperform.
  { simpl. by rewrite Hcreate. }
  pose proof (perform_creates _ fuel st (create_file path) name parent _ _
                Hget Hperform) as Hroot.
  simpl in Hroot. destruct Hv as (c & Hat & Hfree).
  assert (State_getitem fuel st' path = Some (File (parent ++ [name]) ref))
    as Hget'.
  { rewrite (creation_State_getitem st _ parent name _ c Hat Hfree
               Hroot fuel path _ Hget) by done.
    simpl. by rewrite decide_True. }
  unfold State_is_file, State_remove_file. rewrite Hcreate.
  unfold State_create_file. rewrite Hget'. simpl.
  split_and!; try done; try (by destruct fuel).
  unfold File_remove_file. rewrite parent_of_snoc, name_of_snoc.
  by rewrite (delete_after_create st _ parent name _ c Hat Hfree Hroot).
Qed.

Lemma X12_create_file_witness :
  ∃ st' h,
    State_create_file 0 st_e ["d"; "n"] = Some (st', Return h) ∧
    h_text h = true ∧
    State_getitem 0 st' ["d"; "n"] = Some (File (["d"] ++ ["n"]) (h_buffer h)) ∧
    buffer_at st' (h_buffer h) = BytesIO_new [] ∧
    State_is_file 0 st' ["d"; "n"] = Some true ∧
    State_create_file 0 st' ["d"; "n"]
    = Some (st', Raise (FileExists ["d"; "n"])) ∧
    State_remove_file 0 st' ["d"; "n"]
    = Some (mkState (root st_e) (buffers st'), Return tt).
Proof.
  apply (X12_create_file 0 st_e ["d"; "n"] "n" ["d"]). reflexivity.
Defined.

(** ** Resolution after an object was removed *)

Lemma prefix_snoc_inv (place loc : list string) s :
  place `prefix_of` loc ++ [s] → place `prefix_of` loc ∨ place = loc ++ [s].
Proof.
  intros [k Hk]. destruct k as [|x k _] using rev_ind.
  - right. by rewrite app_nil_r in Hk.
  - left. rewrite app_assoc in Hk. apply app_inj_tail in Hk as [-> _].
    by exists k.
Qed.

Section Deletion.
Variables (st st' : State) (parent : list string) (name : string).
Variable c : gmap string obj.
Hypothesis Hat : children_at (root st) parent = Some c.
Hypothesis Hroot :
  root st' = update_dir (λ children, delete name children) parent (root st).

Lemma deletion_children loc ch :
  children_at (root st) loc = Some ch →
  ¬ (parent ++ [name]) `prefix_of` loc →
  ∃ ch',
    children_at (root st') loc = Some ch' ∧
    ∀ s,
      if decide (loc = parent ∧ s = name)
      then ch' !! s = None
      else match ch !! s with
           | Some (DirObj _) => ∃ d', ch' !! s = Some (DirObj d')
           | x => ch' !! s = x
           end.
Proof using Hat Hroot.
  intros Hloc Hplace. rewrite Hroot.
  destruct (decide (parent `prefix_of` loc)) as [[rest ->]|Hoff].
  - rewrite (children_at_update_dir_prefix _ _ _ _ _ Hat).
    rewrite children_at_app, Hat in Hloc. simpl in Hloc.
    destruct rest as [|n rest].
    + simpl in Hloc |- *. injection Hloc as <-. eexists; split; [done|].
      intros s. rewrite app_nil_r.
      destruct (decide (s = name)) as [->|Hs].
      * rewrite decide_True by done. by rewrite lookup_delete_eq.
      * rewrite decide_False by (by intros [_ ?]).
        rewrite lookup_delete_ne by done.
        destruct (c !! s) as [[]|]; eauto.
    + assert (n ≠ name) as Hn.
      { intros ->. apply Hplace. apply prefix_app. by apply prefix_cons, prefix_nil. }
      simpl in Hloc |- *. rewrite lookup_delete_ne by done.
      rewrite Hloc. eexists; split; [done|]. intros s.
      rewrite decide_False.
      * destruct (ch !! s) as [[]|]; eauto.
      * intros [Heq _]. rewrite <-(app_nil_r parent) in Heq at 2.
        by apply app_inv_head in Heq.
  - pose proof (update_dir_frame_off (λ children, delete name children)
                  parent (root st) loc Hoff) as Hframe.
    rewrite Hloc in Hframe. simpl in Hframe.
    destruct (children_at (update_dir _ parent (root st)) loc) as [ch'|];
      [|done].
    simpl in Hframe. injection Hframe as Hframe.
    exists ch'. split; [done|]. intros s.
    rewrite decide_False by (intros [-> _]; by apply Hoff).
    assert (binding_of <$> ch' !! s = binding_of <$> ch !! s) as Hs
      by (by rewrite <-!lookup_fmap, Hframe).
    destruct (ch !! s) as [[]|], (ch' !! s) as [[]|]; simpl in Hs;
      try done; try (by injection Hs as ->); eauto.
Qed.

Lemma deletion_Directory_getitem loc ch s :
  children_at (root st) loc = Some ch →
  ¬ (parent ++ [name]) `prefix_of` loc →
  remaining st' parent name (Directory_getitem loc ch s)
    (Directory_getitem loc (default ∅ (children_at (root st') loc)) s).
Proof using Hat Hroot.
  intros Hloc Hplace.
  destruct (deletion_children loc ch Hloc Hplace) as (ch' & Hloc' & Hs).
  specialize (Hs s). rewrite Hloc'. simpl. unfold Directory_getitem.
  destruct (decide (loc = parent ∧ s = name)) as [[-> ->]|Hne].
  - rewrite Hs. right.
    destruct (c !! name) as [[]|] eqn:E;
      rewrite Hat in Hloc; injection Hloc as <-; rewrite E; simpl;
      rewrite ?decide_True by done; done.
  - assert (¬ (parent ++ [name]) `prefix_of` loc ++ [s]) as Hplace'.
    { intros [Hp|Hp]%prefix_snoc_inv; [done|].
      apply app_inj_tail in Hp as [-> ->]. by apply Hne. }
    right. destruct (ch !! s) as [[d| |]|] eqn:E.
    + destruct Hs as [d' Hd']. rewrite Hd'. simpl.
      rewrite decide_False by done.
      by rewrite children_at_app, Hloc'; simpl; rewrite Hd'.
    + rewrite Hs. simpl. by rewrite decide_False.
    + rewrite Hs. simpl. by rewrite decide_False.
    + by rewrite Hs.
Qed.

Lemma deletion_getitem fuel n n' s r :
  valid st n → remaining st' parent name n n' →
  getitem fuel st n s = Some r →
  ∃ r', getitem fuel st' n' s = Some r' ∧ remaining st' parent name r r'.
Proof using Hat Hroot.
  revert n n' s r. induction fuel as [|fuel IH]; intros n n' s r Hv Hrel.
  all: destruct Hrel as [->|Hrel];
    [intros _; exists NoSuchEntry; split; [by destruct fuel || done|by left]|].
  all: destruct n; simpl in Hrel.
  all: try (destruct (decide ((parent ++ [name]) `prefix_of` loc)) as [Hp|Hp];
            [destruct Hrel as [_ ->]; intros _; exists NoSuchEntry;
             split; [done|by left]|]).
  all: try subst n'.
  all: rewrite ?getitem_Directory, ?getitem_File, ?getitem_DirectoryChild,
         ?getitem_FileChild, ?getitem_NoSuchEntry.
  all: try (intros [= <-]; eexists; split; [done|];
            first [by apply deletion_Directory_getitem | by right | by left]).
  - done.
  - rewrite !getitem_Link. unfold State_getitem.
    destruct (walk (getitem fuel st) _ source) as [t|] eqn:E; [|done].
    cbn -[getitem]. intros Hget.
    destruct (walk_rel (λ a b, valid st a ∧ remaining st' parent name a b)
                (getitem fuel st) (getitem fuel st') source
                (Directory [] (root st)) (Directory [] (root st')) t)
      as (t' & -> & Hvt & Ht); [| |done|].
    { intros a b x y [Ha Hab] Hx.
      destruct (IH a b x y Ha Hab Hx) as (y' & Hy' & Hyy').
      exists y'. split; [done|]. split; [by eapply getitem_valid|done]. }
    { split; [done|]. right. simpl.
      rewrite decide_False; [done|]. intros [k Hk]. by destruct parent. }
    cbn -[getitem]. by eapply IH.
Qed.

Lemma deletion_State_getitem fuel path r :
  State_getitem fuel st path = Some r →
  ∃ r', State_getitem fuel st' path = Some r' ∧ remaining st' parent name r r'.
Proof using Hat Hroot.
  intros Hget. unfold State_getitem in *.
  destruct (walk_rel (λ a b, valid st a ∧ remaining st' parent name a b)
              (getitem fuel st) (getitem fuel st') path
              (Directory [] (root st)) (Directory [] (root st')) r)
    as (r' & Hr' & _ & Hrel); [| |done|by exists r'].
  - intros a b x y [Ha Hab] Hx.
    destruct (deletion_getitem fuel a b x y Ha Hab Hx) as (y' & Hy' & Hyy').
    exists y'. split; [done|]. split; [by eapply getitem_valid|done].
  - split; [done|]. right. simpl.
    rewrite decide_False; [done|]. intros [k Hk]. by destruct parent.
Qed.
End Deletion.

Lemma Directory_delitem_Return st loc name st' :
  Directory_delitem st loc name = (st', Return tt) →
  (∃ c, children_at (root st) loc = Some c) ∧
  root st' = update_dir (λ children, delete name children) loc (root st).
Proof.
  unfold Directory_delitem.
  destruct (children_at (root st) loc) as [c|]; [|done].
  destruct (c !! name); [|done]. intros [= <-]. eauto.
Qed.

(** What a successful removal was applied to, and what it did. *)
Lemma perform_removes _parse_mode fuel st r st' v :
  removal r = true →
  perform _parse_mode fuel st r = Some (st', Return v) →
  ∃ n,
    State_getitem fuel st (request_path r) = Some n ∧
    node_loc n ≠ [] ∧
    (∃ c, children_at (root st) (parent_of (node_loc n)) = Some c) ∧
    root st'
    = update_dir (λ children, delete (name_of (node_loc n)) children)
        (parent_of (node_loc n)) (root st).
Proof.
  destruct r; try done; intros _; simpl; unfold returning;
    [unfold State_remove_file|unfold State_remove_empty_directory].
  - destruct (State_getitem fuel st path) as [n|] eqn:Hget; simpl; [|done].
    destruct (Node_remove_file st n path) as [st1 [[]|e]] eqn:E; simpl;
      intros ?; simplify_eq.
    exists n. split; [done|].
    destruct n; simpl in E; try done;
      destruct (State_getitem_valid _ _ _ _ Hget) as [Hne _];
      (split; [done|]); by apply Directory_delitem_Return in E.
  - destruct (State_getitem fuel st path) as [n|] eqn:Hget; simpl; [|done].
    destruct (Node_remove_empty_directory st n path) as [st1 [[]|e]] eqn:E;
      simpl; intros ?; simplify_eq.
    exists n. split; [done|].
    destruct n; simpl in E; try done.
    unfold Directory_remove_empty_directory in E.
    destruct (Nat.eqb_spec (size children) 0) as [Hempty|]; simpl in E; [|done].
    split; [|by apply Directory_delitem_Return in E].
    simpl. intros ->. pose proof (State_getitem_valid _ _ _ _ Hget) as Hv.
    simpl in Hv. injection Hv as <-.
    apply map_size_empty_iff in Hempty.
    unfold Directory_delitem in E. simpl in E.
    by rewrite Hempty, lookup_empty in E.
Qed.

(** ** Removed is gone *)

(** X13: after [remove_file] or [remove_empty_directory] succeeded on a
    path, that path does not exist in the new state: [exists], [is_dir],
    [is_file] and [is_link] are false, and [remove_file],
    [remove_empty_directory], [readlink] and [list_directory] on it fail
    with [FileNotFound] for that path. *)
Theorem X13_removed_is_gone _parse_mode fuel st r st' v :
  removal r = true →
  perform _parse_mode fuel st r = Some (st', Return v) →
  State_exists fuel st' (request_path r) = Some false ∧
  State_is_dir fuel st' (request_path r) = Some false ∧
  State_is_file fuel st' (request_path r) = Some false ∧
  State_is_link fuel st' (request_path r) = Some false ∧
  State_remove_file fuel st' (request_path r)
  = Some (st', Raise (FileNotFound (request_path r))) ∧
  State_remove_empty_directory fuel st' (request_path r)
  = Some (st', Raise (FileNotFound (request_path r))) ∧
  State_readlink fuel st' (request_path r)
  = Some (st', Raise (FileNotFound (request_path r))) ∧
  State_list_directory fuel st' (request_path r)
  = Some (st', Raise (FileNotFound (request_path r))).
Proof.
  intros Hremoval Hperform.
  destruct (perform_removes _ _ _ _ _ _ Hremoval Hperform)
    as (n & Hget & Hne & [c Hat] & Hroot).
  destruct (deletion_State_getitem st st' _ _ c Hat Hroot fuel _ n Hget)
    as (n' & Hget' & Hrel).
  assert (n' = NoSuchEntry
          ∨ n' = DirectoryChild (name_of (node_loc n)) (parent_of (node_loc n)))
    as Hgone.
  { destruct Hrel as [->|Hrel]; [by left|]. right.
    rewrite <-(snoc_parent_name _ Hne) in Hrel.
    destruct n; simpl in Hne, Hrel |- *; try done;
      rewrite decide_True in Hrel by done; by destruct Hrel. }
  unfold State_exists, State_is_dir, State_is_file, State_is_link,
    State_remove_file, State_remove_empty_directory, State_readlink,
    State_list_directory.
  rewrite Hget'. destruct Hgone as [->| ->]; simpl;
    split_and!; try done; by destruct fuel.
Qed.

Lemma X13_removed_is_gone_witness :
  State_exists 1 st_e (request_path (remove_file ["d"; "l"])) = Some false ∧
  State_is_dir 1 st_e (request_path (remove_file ["d"; "l"])) = Some false ∧
  State_is_file 1 st_e (request_path (remove_file ["d"; "l"])) = Some false ∧
  State_is_link 1 st_e (request_path (remove_file ["d"; "l"])) = Some false ∧
  State_remove_file 1 st_e (request_path (remove_file ["d"; "l"]))
  = Some (st_e, Raise (FileNotFound (request_path (remove_file ["d"; "l"])))) ∧
  State_remove_empty_directory 1 st_e (request_path (remove_file ["d"; "l"]))
  = Some (st_e, Raise (FileNotFound (request_path (remove_file ["d"; "l"])))) ∧
  State_readlink 1 st_e (request_path (remove_file ["d"; "l"]))
  = Some (st_e, Raise (FileNotFound (request_path (remove_file ["d"; "l"])))) ∧
  State_list_directory 1 st_e (request_path (remove_file ["d"; "l"]))
  = Some (st_e, Raise (FileNotFound (request_path (remove_file ["d"; "l"])))).
Proof.
  apply (X13_removed_is_gone parse_mode 1
           (mkState {["d" := DirObj {["l" := LinkObj ["d"]]}]} [])
           (remove_file ["d"; "l"]) st_e VNone); reflexivity.
Defined.

(** ** The stat predicates agree with each other *)

Lemma Node_stat_consistent fuel st n b :
  Node_exists fuel st n = Some b →
  ∃ d f,
    Node_is_dir fuel st n = Some d ∧ Node_is_file fuel st n = Some f ∧
    b = d || f ∧ d && f = false.
Proof.
  revert n b; induction fuel as [|fuel IH]; intros n b;
    destruct n; simpl; try (intros [= <-]; by eexists _, _); try done.
  destruct (entry_at_source fuel st source) as [t|]; [|done]. apply IH.
Qed.

(** X14: whenever [exists] answers for a path, [is_dir] and [is_file]
    answer too; the path exists exactly when it is a directory or a file,
    and it is never both.  (A link exists when what it targets does.) *)
Theorem X14_stat_predicates_agree fuel st path b :
  State_exists fuel st path = Some b →
  ∃ d f,
    State_is_dir fuel st path = Some d ∧ State_is_file fuel st path = Some f ∧
    b = d || f ∧ d && f = false.
Proof.
  unfold State_exists, State_is_dir, State_is_file.
  destruct (State_getitem fuel st path) as [n|]; [simpl|done].
  apply Node_stat_consistent.
Qed.

Lemma X14_stat_predicates_agree_witness :
  ∃ d f,
    State_is_dir 1 st_dl ["l"] = Some d ∧ State_is_file 1 st_dl ["l"] = Some f ∧
    true = d || f ∧ d && f = false.
Proof.
  apply (X14_stat_predicates_agree 1 st_dl ["l"] true). reflexivity.
Defined.

(** ** [list_directory] follows links *)

(** X15: [list_directory] acts on the node that the path leads to when
    links are followed: it returns the names bound in that directory, and
    when the path leads to a file or to a free name, [NotADirectory] or
    [FileNotFound] carries the path that was given, not the target of the
    link.  The state is unchanged. *)
Theorem X15_list_directory_follows_links fuel st path n :
  State_follow fuel st path = Some n →
  State_list_directory fuel st path
  = Some (st, match n with
              | Directory _ children => Return (dom children)
              | File _ _ | FileChild _ => Raise (NotADirectory path)
              | _ => Raise (FileNotFound path)
              end).
Proof.
  intros Hfollow. rewrite State_list_directory_follow, Hfollow. simpl.
  destruct n; try done.
  unfold State_follow in Hfollow.
  destruct (State_getitem fuel st path) as [node|]; [simpl in Hfollow|done].
  exfalso. clear -Hfollow. revert node Hfollow.
  induction fuel as [|fuel IH]; intros node; destruct node; simpl; try done.
  unfold entry_at_source.
  destruct (State_getitem fuel st source0) as [t|]; [apply IH|done].
Qed.

Lemma X15_list_directory_follows_links_witness :
  State_list_directory 1 st_dl ["l"]
  = Some (st_dl, match Directory ["d"] {["f" := FileObj 0]} with
                 | Directory _ children => Return (dom children)
                 | File _ _ | FileChild _ => Raise (NotADirectory ["l"])
                 | _ => Raise (FileNotFound ["l"])
                 end).
Proof.
  apply (X15_list_directory_follows_links 1 st_dl ["l"]
           (Directory ["d"] {["f" := FileObj 0]})).
  reflexivity.
Defined.

(** ** A reader holds a copy *)

Lemma set_buffer_other st ref b ref' :
  ref' ≠ ref → buffers (set_buffer st ref b) !! ref' = buffers st !! ref'.
Proof. intros Hne. simpl. by apply list_lookup_insert_ne. Qed.

Lemma handle_write_other st h data ref :
  ref ≠ h_buffer h → buffers (handle_write st h data).1 !! ref = buffers st !! ref.
Proof.
  intros Hne. unfold handle_write.
  destruct (buffer_at st (h_buffer h)) as [value pos|]; [|done].
  destruct (encoded (h_text h) data); [|done].
  cbn [BytesIO_write fst]. by apply set_buffer_other.
Qed.

Lemma handle_close_other st h ref :
  ref ≠ h_buffer h → buffers (handle_close st h).1 !! ref = buffers st !! ref.
Proof.
  intros Hne. unfold handle_close.
  destruct (buffer_at st (h_buffer h)); simpl.
  - by apply list_lookup_insert_ne.
  - by destruct (h_text h).
Qed.

Lemma State_open_file_buffers _parse_mode fuel st path mode st' o :
  State_open_file _parse_mode fuel st path mode = Some (st', o) →
  ∃ new, buffers st' = buffers st ++ new ∧
         ∀ h, o = Return h →
              length (buffers st) ≤ h_buffer h < length (buffers st').
Proof.
  unfold State_open_file.
  destruct (_parse_mode mode) as [m|e].
  - destruct (State_getitem fuel st path) as [node|]; [simpl|done].
    apply Node_open_file_buffers.
  - intros [= <- <-]. exists []. by rewrite app_nil_r.
Qed.

Lemma write_file_buffers _parse_mode fuel st path mode data st' o ref :
  write_file _parse_mode fuel st path mode data = Some (st', o) →
  ref < length (buffers st) →
  buffers st' !! ref = buffers st !! ref.
Proof.
  unfold write_file. intros Hw Href.
  destruct (State_open_file _parse_mode fuel st path mode)
    as [[st1 [f|e]]|] eqn:Hopen; [| |done].
  - destruct (State_open_file_buffers _ _ _ _ _ _ _ Hopen) as (new & Hb & Hh).
    specialize (Hh f eq_refl).
    assert (ref ≠ h_buffer f) as Hne by lia.
    assert (buffers st1 !! ref = buffers st !! ref) as <-
      by (by rewrite Hb, lookup_app_l).
    pose proof (handle_write_other st1 f data ref Hne) as Hwr.
    destruct (handle_write st1 f data) as [st2 [[]|e]]; simpl in Hwr;
      rewrite <-Hwr.
    + pose proof (handle_close_other st2 f ref Hne) as Hcl.
      destruct (handle_close st2 f) as [st3 o3]. by simplify_eq.
    + injection Hw as <- _. by apply handle_close_other.
  - injection Hw as <- _.
    destruct (State_open_file_buffers _ _ _ _ _ _ _ Hopen) as (new & Hb & _).
    by rewrite Hb, lookup_app_l.
Qed.

(** X16: a handle opened for reading holds a copy of the contents taken
    when it was opened.  Whatever is written to any path afterwards (the
    file itself included), reading from the handle gives the contents of
    the file as they were at the time of opening. *)
Theorem X16_reader_holds_a_copy _parse_mode fuel st path mode m loc contents :
  _parse_mode mode = Return m → mode_read m = true →
  State_follow fuel st path = Some (File loc contents) →
  ∃ st1 h,
    State_open_file _parse_mode fuel st path mode = Some (st1, Return h) ∧
    ∀ q mode' data st2 o,
      write_file _parse_mode fuel st1 q mode' data = Some (st2, o) →
      (handle_read st2 h).2
      = decoded (text m) (BytesIO_bytes (buffer_at st contents)).
Proof.
  intros Hm Hread Hfollow.
  rewrite (State_open_file_follow _ _ _ _ _ _ Hm), Hfollow.
  change (Some (File loc contents) ≫= λ n0, Node_open_file 0 st n0 path m)
    with (Some (File_open_file st loc contents m)).
  unfold File_open_file. rewrite Hread. cbn [alloc].
  eexists _, _. split; [reflexivity|].
  intros q mode' data st2 o Hw.
  apply write_file_buffers with (ref := length (buffers st)) in Hw;
    [|cbn; rewrite length_app; simpl; lia].
  cbn [buffers] in Hw. rewrite lookup_app_r, Nat.sub_diag in Hw by done.
  unfold handle_read, buffer_at at 1. cbn [h_buffer h_text].
  rewrite Hw. cbn. by rewrite drop_0.
Qed.

Lemma X16_reader_holds_a_copy_witness :
  ∃ st1 h,
    State_open_file parse_mode 0 st_f ["f"] "rb" = Some (st1, Return h) ∧
    ∀ q mode' data st2 o,
      write_file parse_mode 0 st1 q mode' data = Some (st2, o) →
      (handle_read st2 h).2
      = decoded (text (mkFileMode ActRead false)) (BytesIO_bytes (buffer_at st_f 0)).
Proof.
  apply (X16_reader_holds_a_copy parse_mode 0 st_f ["f"] "rb"
           (mkFileMode ActRead false) ["f"] 0); reflexivity.
Defined.

(** ** Temporary directories *)

(** X17: [temporary_directory] makes its directory in the root, under the
    name it drew.  When that name is free, it returns the path of a new
    empty directory and every other entry of the root stays as it was; when
    the name is taken, by whatever kind of entry, it raises [FileExists]
    and changes nothing: it does not draw again.  No link is followed. *)
Theorem X17_temporary_directory hex fuel st :
  match root st !! hex with
  | None =>
      let st' := mkState (<[hex := DirObj ∅]> (root st)) (buffers st) in
      State_temporary_directory hex fuel st = Some (st', Return [hex]) ∧
      State_is_dir fuel st' [hex] = Some true ∧
      State_list_directory fuel st' [hex] = Some (st', Return ∅) ∧
      State_temporary_directory hex fuel st'
      = Some (st', Raise (FileExists [hex]))
  | Some _ =>
      State_temporary_directory hex fuel st
      = Some (st, Raise (FileExists [hex]))
  end.
Proof.
  unfold State_temporary_directory, State_create_directory, State_is_dir,
    State_list_directory, State_getitem.
  cbn [walk]. rewrite !getitem_Directory. unfold Directory_getitem.
  destruct (root st !! hex) as [o|] eqn:Hhex.
  - cbn. by destruct o.
  - cbn. rewrite lookup_insert_eq. cbn. split_and!; try done.
    all: by destruct fuel.
Qed.

(** ** Writing through a link whose target is missing *)

(** X18: take a link whose stored target leads to a free name in an
    existing directory.  Opening the link for reading raises
    [FileNotFound] with the path of the link.  Writing or appending
    through the link makes the file at the place the target names: the
    link stays the link it was, its target now leads to a file, and that
    file holds exactly what was written. *)
Theorem X18_write_through_a_dangling_link _parse_mode fuel st to loc source
    name parent mr m' mw m data bs :
  _parse_mode mr = Return m' → mode_read m' = true →
  _parse_mode mw = Return m → mode_read m = false →
  encoded (text m) data = Return bs →
  State_getitem fuel st to = Some (Link loc source) →
  State_follow fuel st source = Some (DirectoryChild name parent) →
  State_open_file _parse_mode (S fuel) st to mr
  = Some (st, Raise (FileNotFound to)) ∧
  ∃ st1 ref,
    write_file _parse_mode (S fuel) st to mw data = Some (st1, Return tt) ∧
    State_getitem (S fuel) st1 to = Some (Link loc source) ∧
    State_follow (S fuel) st1 source = Some (File (parent ++ [name]) ref) ∧
    buffer_at st1 ref = Closed bs.
Proof.
  intros Hmr Hread' Hmw Hread Henc Hto Hsource.
  assert (State_follow (S fuel) st to = Some (DirectoryChild name parent))
    as Hfollow by (by rewrite (State_follow_Link _ _ _ _ _ Hto)).
  split.
  - rewrite (State_open_file_follow _ _ _ _ _ _ Hmr), Hfollow. simpl.
    unfold DirectoryChild_open_file. by rewrite Hread'.
  - destruct (write_file_spec _parse_mode (S fuel) st to mw m data bs
                (DirectoryChild name parent))
      as (st1 & ref & Hw & Hgrows & Hchild & _ & Hbuf);
      [done|done|done|done|by eapply State_follow_valid|done|].
    exists st1, ref. split_and!.
    + done.
    + assert (State_getitem (S fuel) st to = Some (Link loc source)) as Hto'
        by (eapply State_getitem_mono; [|done]; lia).
      destruct (State_getitem_grows _ _ _ _ _ Hgrows Hto')
        as (r' & -> & _ & _ & Hr').
      simpl in Hr'. by rewrite Hr'.
    + apply (State_follow_after (S fuel) st st1 source
               (DirectoryChild name parent) ref); try done.
      eapply State_follow_mono; [|done]. lia.
    + rewrite Hbuf. simpl. by destruct (mode_write m).
Qed.

Lemma X18_write_through_a_dangling_link_witness :
  State_open_file parse_mode 1 (mkState {["l" := LinkObj ["f"]]} []) ["l"] "r"
  = Some (mkState {["l" := LinkObj ["f"]]} [], Raise (FileNotFound ["l"])) ∧
  ∃ st1 ref,
    write_file parse_mode 1 (mkState {["l" := LinkObj ["f"]]} []) ["l"] "wb"
      (Bytes ["a"%byte])
    = Some (st1, Return tt) ∧
    State_getitem 1 st1 ["l"] = Some (Link ["l"] ["f"]) ∧
    State_follow 1 st1 ["f"] = Some (File ([] ++ ["f"]) ref) ∧
    buffer_at st1 ref = Closed ["a"%byte].
Proof.
  apply (X18_write_through_a_dangling_link parse_mode 0
           (mkState {["l" := LinkObj ["f"]]} []) ["l"] ["l"] ["f"] "f" []
           "r" (mkFileMode ActRead true) "wb" (mkFileMode ActWrite false)
           (Bytes ["a"%byte]) ["a"%byte]); reflexivity.
Defined.

(** ** Removal of a directory *)

Lemma children_at_delete_empty (c : gmap string obj) name n rest :
  c !! name = Some (DirObj ∅) →
  n :: rest ≠ [name] →
  children_at (delete name c) (n :: rest) = children_at c (n :: rest).
Proof.
  intros Hempty Hne. simpl.
  destruct (decide (n = name)) as [->|Hn]; [|by rewrite lookup_delete_ne].
  rewrite lookup_delete_eq, Hempty.
  destruct rest as [|m rest]; [done|]. simpl. by rewrite lookup_empty.
Qed.

(** X19: [remove_empty_directory] on a path that resolves to a directory
    other than the root.  When the directory binds a name, it raises
    [DirectoryNotEmpty] with the path and changes nothing.  When it is
    empty, it succeeds: the directory that held it has lost exactly that
    name, the place is no directory any more, every other directory binds
    what it bound, and no buffer has changed. *)
Theorem X19_remove_empty_directory fuel st path loc children :
  State_getitem fuel st path = Some (Directory loc children) →
  loc ≠ [] →
  if decide (children = ∅) then
    ∃ st',
      State_remove_empty_directory fuel st path = Some (st', Return tt) ∧
      mapping_at st' (parent_of loc)
      = delete (name_of loc) <$> mapping_at st (parent_of loc) ∧
      mapping_at st' loc = None ∧
      (∀ loc', loc' ≠ parent_of loc → loc' ≠ loc →
               mapping_at st' loc' = mapping_at st loc') ∧
      buffers st' = buffers st
  else
    State_remove_empty_directory fuel st path
    = Some (st, Raise (DirectoryNotEmpty path)).
Proof.
  intros Hget Hne.
  pose proof (State_getitem_valid _ _ _ _ Hget) as Hv. simpl in Hv.
  unfold State_remove_empty_directory. rewrite Hget. simpl.
  unfold Directory_remove_empty_directory.
  destruct (decide (children = ∅)) as [->|Hfull].
  - rewrite map_size_empty. simpl.
    rewrite (snoc_parent_name loc Hne), children_at_snoc_child,
      child_at_snoc in Hv.
    destruct (children_at (root st) (parent_of loc)) as [c|] eqn:Hat; [|done].
    simpl in Hv.
    destruct (c !! name_of loc) as [[d| |]|] eqn:Hname; try done.
    injection Hv as ->.
    unfold Directory_delitem. rewrite Hat, Hname.
    eexists. split; [reflexivity|]. unfold mapping_at. simpl. split_and!.
    + rewrite (children_at_update_dir _ _ _ _ Hat), Hat. simpl.
      by rewrite fmap_delete.
    + rewrite (snoc_parent_name loc Hne) at 2.
      rewrite (children_at_update_dir_prefix _ _ _ _ _ Hat). simpl.
      by rewrite lookup_delete_eq.
    + intros loc' Hne1 Hne2.
      destruct (decide (parent_of loc `prefix_of` loc')) as [[rest ->]|Hoff];
        [|by apply update_dir_frame_off].
      rewrite (children_at_update_dir_prefix _ _ _ _ _ Hat), children_at_app, Hat.
      simpl. destruct rest as [|n rest]; [by rewrite app_nil_r in Hne1|].
      rewrite children_at_delete_empty; [done|done|].
      intros [= -> ->]. by rewrite <-snoc_parent_name in Hne2.
    + done.
  - destruct (size children =? 0) eqn:Hsize; [|done].
    apply Nat.eqb_eq, map_size_empty_iff in Hsize. done.
Qed.

Lemma X19_remove_empty_directory_witness :
  if decide (({["n" := DirObj ∅]} : gmap string obj) = ∅) then
    ∃ st',
      State_remove_empty_directory 0 (mkState {["d" := DirObj {["n" := DirObj ∅]}]} [])
        ["d"] = Some (st', Return tt) ∧
      mapping_at st' (parent_of ["d"])
      = delete (name_of ["d"])
          <$> mapping_at (mkState {["d" := DirObj {["n" := DirObj ∅]}]} [])
                (parent_of ["d"]) ∧
      mapping_at st' ["d"] = None ∧
      (∀ loc', loc' ≠ parent_of ["d"] → loc' ≠ ["d"] →
               mapping_at st' loc'
               = mapping_at (mkState {["d" := DirObj {["n" := DirObj ∅]}]} []) loc') ∧
      buffers st' = buffers (mkState {["d" := DirObj {["n" := DirObj ∅]}]} [])
  else
    State_remove_empty_directory 0 (mkState {["d" := DirObj {["n" := DirObj ∅]}]} [])
      ["d"]
    = Some (mkState {["d" := DirObj {["n" := DirObj ∅]}]} [],
            Raise (DirectoryNotEmpty ["d"])).
Proof.
  apply (X19_remove_empty_directory 0
           (mkState {["d" := DirObj {["n" := DirObj ∅]}]} []) ["d"] ["d"]
           {["n" := DirObj ∅]}); [reflexivity|done].
Defined.

(** ** The name of the interpreter for a version *)

Lemma str_replace_component s : dash ∉ s → str_replace dash dot s = s.
Proof.
  unfold str_replace. induction s as [|c s IH]; [done|].
  intros Hnot. apply not_elem_of_cons in Hnot as [Hc Hs].
  rewrite fmap_cons, IH by done. by rewrite decide_False.
Qed.

Lemma str_replace_app s1 s2 :
  str_replace dash dot (s1 ++ s2)
  = str_replace dash dot s1 ++ str_replace dash dot s2.
Proof. apply fmap_app. Qed.

Lemma str_replace_separator c s :
  separator c →
  str_replace dash dot (c :: s) = dot :: str_replace dash dot s.
Proof. by intros [->| ->]. Qed.

Lemma str_split_component s : dot ∉ s → str_split dot s = [s].
Proof.
  induction s as [|c s IH]; [done|].
  intros Hnot. apply not_elem_of_cons in Hnot as [Hc Hs].
  simpl. by rewrite decide_False, IH.
Qed.

Lemma str_split_app s rest :
  dot ∉ s → str_split dot (s ++ dot :: rest) = s :: str_split dot rest.
Proof.
  induction s as [|c s IH]; [done|].
  intros Hnot. apply not_elem_of_cons in Hnot as [Hc Hs].
  simpl. by rewrite decide_False, IH.
Qed.

(** X20: [python_name_from_version] keeps the first two components of a
    version, joined by a dot, whatever separates them (dot or dash) and
    whatever follows them; the name is that string itself when it starts
    with [pypy], and that string after [python] otherwise.  A version of
    one component is kept whole. *)
Theorem X20_python_name_from_version a b s s' rest :
  component a → component b → separator s → separator s' →
  let name version :=
    if startswith version (str_of "pypy") then version
    else str_of "python" ++ version in
  python_name_from_version a = name a ∧
  python_name_from_version (a ++ s :: b) = name (a ++ dot :: b) ∧
  python_name_from_version (a ++ s :: b ++ s' :: rest) = name (a ++ dot :: b).
Proof.
  intros [Ha1 Ha2] [Hb1 Hb2] Hs Hs' name. unfold python_name_from_version.
  rewrite !str_replace_app, !str_replace_separator, !str_replace_app,
    !str_replace_separator, !str_replace_component by done.
  rewrite !str_split_app, !str_split_component by done.
  by split_and!.
Qed.

Lemma X20_python_name_from_version_witness :
  let name version :=
    if startswith version (str_of "pypy") then version
    else str_of "python" ++ version in
  python_name_from_version (str_of "pypy3") = name (str_of "pypy3") ∧
  python_name_from_version (str_of "pypy3" ++ dot :: str_of "5")
  = name (str_of "pypy3" ++ dot :: str_of "5") ∧
  python_name_from_version
    (str_of "pypy3" ++ dot :: str_of "5" ++ dash :: str_of "6.0")
  = name (str_of "pypy3" ++ dot :: str_of "5").
Proof.
  apply (X20_python_name_from_version (str_of "pypy3") (str_of "5") dot dash
           (str_of "6.0")).
  - split; apply (bool_decide_unpack _); by vm_compute.
  - split; apply (bool_decide_unpack _); by vm_compute.
  - by right.
  - by left.
Defined.

(** ** Opening for writing detaches the file from earlier handles *)

Lemma handle_write_root st h data : root (handle_write st h data).1 = root st.
Proof.
  unfold handle_write.
  destruct (buffer_at st (h_buffer h)) as [value pos|]; [|done].
  by destruct (encoded (h_text h) data).
Qed.

(** X21: opening a path for writing or appending gives the file a buffer
    of its own, the one of the handle returned.  A handle obtained before
    that (on this file or on any other) is on another buffer: what is
    written through it afterwards reaches neither the file nor the new
    handle. *)
Theorem X21_reopening_detaches _parse_mode fuel st path mode m n old :
  _parse_mode mode = Return m → mode_read m = false →
  State_follow fuel st path = Some n → file_or_missing n = true →
  h_buffer old < length (buffers st) →
  ∃ st1 h,
    State_open_file _parse_mode fuel st path mode = Some (st1, Return h) ∧
    State_follow fuel st1 path = Some (File (file_loc n) (h_buffer h)) ∧
    ∀ data,
      let st2 := (handle_write st1 old data).1 in
      State_follow fuel st2 path = Some (File (file_loc n) (h_buffer h)) ∧
      buffer_at st2 (h_buffer h) = buffer_at st1 (h_buffer h).
Proof.
  intros Hm Hread Hfollow Hfile Hold.
  pose proof (State_follow_valid _ _ _ _ Hfollow) as Hv.
  destruct (Node_open_file_writing st n path m Hv Hfile Hread)
    as (st1 & ref & Hopen & Hgrows & Hchild & _ & _ & _).
  assert (State_open_file _parse_mode fuel st path mode
          = Some (st1, Return (mkHandle ref (text m)))) as Hstate.
  { rewrite (State_open_file_follow _ _ _ _ _ _ Hm), Hfollow. exact Hopen. }
  destruct (State_open_file_buffers _ _ _ _ _ _ _ Hstate) as (new & Hb & Hh).
  specialize (Hh _ eq_refl). simpl in Hh.
  exists st1, (mkHandle ref (text m)). split; [done|]. simpl. split.
  - by apply (State_follow_after fuel st st1 path n ref).
  - intros data. split.
    + apply (State_follow_after fuel st _ path n ref); try done;
        by rewrite handle_write_root.
    + unfold buffer_at. rewrite handle_write_other; [done|lia].
Qed.

Lemma X21_reopening_detaches_witness :
  ∃ st1 h,
    State_open_file parse_mode 0 st_f ["f"] "ab" = Some (st1, Return h) ∧
    State_follow 0 st1 ["f"]
    = Some (File (file_loc (File ["f"] 0)) (h_buffer h)) ∧
    ∀ data,
      let st2 := (handle_write st1 (mkHandle 0 false) data).1 in
      State_follow 0 st2 ["f"]
      = Some (File (file_loc (File ["f"] 0)) (h_buffer h)) ∧
      buffer_at st2 (h_buffer h) = buffer_at st1 (h_buffer h).
Proof.
  apply (X21_reopening_detaches parse_mode 0 st_f ["f"] "ab"
           (mkFileMode ActAppend false) (File ["f"] 0) (mkHandle 0 false));
    try reflexivity.
  simpl. lia.
Defined.
